(** * ProjectBike, [algorithms.py]: sorting and searching.

    A shallow embedding of the hand-written Merge Sort, Insertion Sort,
    Binary Search and Linear Search of [src/algorithms.py], together with
    the two benchmark harnesses, and the proofs of their specification.

    Python integers are [Z]; a Python list is a [list T] read and written
    through the index and slice operations of module [PyList], which raise
    [IndexError] out of range exactly as Python does; a raised exception is
    an explicit [Raises] outcome, so that "never raises" is a theorem and
    not a convention.

    The program is embedded at two levels.  Module [Algorithms] follows
    the control flow of the four algorithms on list values, the local
    lists [arr] and [result] being passed from one step to the next; it
    carries the results about the values computed.  Module [Store] runs
    the same statements on list objects kept in a heap and reached by
    reference, with the timer the benchmarks read; it carries the results
    about what a call writes.  The lemmas [returns_merge_sort],
    [returns_insertion_sort], [returns_binary_search] and
    [returns_linear_search] show that a run on the store returns what the
    list-level function returns.

    Python floats are IEEE 754 binary64 numbers, taken from the
    specification of floating-point arithmetic of the Standard Library
    ([SpecFloat], with 53 bits of precision): the timer readings, their
    difference, the division by [repeats], the product with [1000] and
    [round(_, 2)] are computed as CPython computes them, each operation
    rounding to the nearest double. *)

From Stdlib Require Import ZArith Lia SpecFloat.
From stdpp Require Import base decidable option list sorting gmap strings.
From Equations Require Import Equations.

Local Open Scope Z_scope.

(** ** Outcomes: a value or a raised exception *)

(** [OutOfFuel] and [SystemError] are not raised by Python: the first
    marks a loop of the store model that used up its step budget, the
    second a reference that names no object.  Both are shown never to
    occur. *)
Inductive exn : Type :=
| IndexError
| ZeroDivisionError
| OverflowError
| SystemError
| OutOfFuel.

Inductive outcome (A : Type) : Type :=
| Returns (a : A)
| Raises (e : exn).
Arguments Returns {A} a.
Arguments Raises {A} e.

#[export] Instance outcome_ret : MRet outcome := fun A a => Returns a.

#[export] Instance outcome_bind : MBind outcome := fun A B f m =>
  match m with
  | Returns a => f a
  | Raises e => Raises e
  end.

(** ** Orderable keys

    The key function maps an element to a value that supports Python's
    [<=], [<], [>] and [==]; the algorithms use all four.  The laws are
    those of a total order whose [==] is equality of key values. *)

Class PyOrd (K : Type) : Type := {
  py_le : K -> K -> bool;
  py_lt : K -> K -> bool;
  py_gt : K -> K -> bool;
  py_eq : K -> K -> bool;
  py_eq_spec : forall a b, py_eq a b = true <-> a = b;
  py_le_total : forall a b, py_le a b = true \/ py_le b a = true;
  py_le_trans : forall a b c, py_le a b = true -> py_le b c = true -> py_le a c = true;
  py_le_antisym : forall a b, py_le a b = true -> py_le b a = true -> a = b;
  py_lt_spec : forall a b, py_lt a b = negb (py_le b a);
  py_gt_spec : forall a b, py_gt a b = negb (py_le a b)
}.

(** [x] may stand before [y]: its key is [<=] the key of [y]. *)
Definition key_le {T K : Type} `{PyOrd K} (key : T -> K) (x y : T) : Prop :=
  py_le (key x) (key y) = true.

#[export] Instance key_le_dec {T K : Type} `{PyOrd K} (key : T -> K)
  : RelDecision (key_le key).
Proof. intros x y. unfold key_le. apply _. Defined.

(** Equality of keys is decided by [==]. *)
#[export] Instance PyOrd_eq_dec {K : Type} `{PyOrd K} : EqDecision K.
Proof.
  intros a b. destruct (py_eq a b) eqn:E.
  - left. apply py_eq_spec, E.
  - right. intros Hab. apply py_eq_spec in Hab. congruence.
Defined.

(** ** Python lists *)

Module PyList.
Section PyList.
Context {T : Type}.

(** [len(l)] *)
Definition len (l : list T) : Z := Z.of_nat (length l).

(** The position a Python index denotes: a negative index counts from
    the end. *)
Definition norm_index (l : list T) (i : Z) : Z :=
  if i <? 0 then i + len l else i.

(** [l[i]] *)
Definition getitem (l : list T) (i : Z) : outcome T :=
  let p := norm_index l i in
  if (0 <=? p) && (p <? len l) then
    match l !! Z.to_nat p with
    | Some x => Returns x
    | None => Raises IndexError
    end
  else Raises IndexError.

(** [l[i] = x], as the list after the assignment *)
Definition setitem (l : list T) (i : Z) (x : T) : outcome (list T) :=
  let p := norm_index l i in
  if (0 <=? p) && (p <? len l) then Returns (<[Z.to_nat p := x]> l)
  else Raises IndexError.

(** The bound of a slice, clamped as Python clamps it. *)
Definition slice_bound (l : list T) (i : Z) : nat :=
  Z.to_nat (Z.min (Z.max (norm_index l i) 0) (len l)).

(** [l[:i]] *)
Definition slice_to (l : list T) (i : Z) : list T := take (slice_bound l i) l.

(** [l[i:]] *)
Definition slice_from (l : list T) (i : Z) : list T := drop (slice_bound l i) l.

(** [list(l)]: a new list with the same elements *)
Definition copy (l : list T) : list T := l.

(** [range(a, b)] *)
Definition range (a b : Z) : list Z := seqZ a (b - a).

(** [enumerate(l)] *)
Definition enumerate (l : list T) : list (Z * T) :=
  imap (fun i x => (Z.of_nat i, x)) l.
End PyList.
End PyList.
Import PyList.

(** ** The algorithms *)

Module Algorithms.
Section Algorithms.
Context {T K : Type} `{PyOrd K}.
Variable key : T -> K.

(** *** Merge Sort *)

Section _merge.
Variables left right : list T.

(** The [while] loop of [_merge]: the state is the result built so far
    and the two read positions. *)
Equations? _merge_while (result : list T) (i j : Z)
    : outcome (list T * Z * Z)
    by wf (Z.to_nat (len left - i) + Z.to_nat (len right - j))%nat lt :=
  _merge_while result i j :=
    if decide (i < len left /\ j < len right) then
      l_i ← getitem left i;
      r_j ← getitem right j;
      if py_le (key l_i) (key r_j) then
        l_i ← getitem left i;
        _merge_while (result ++ [l_i]) (i + 1) j
      else
        r_j ← getitem right j;
        _merge_while (result ++ [r_j]) i (j + 1)
    else Returns (result, i, j).
Proof. all: lia. Qed.

Definition _merge : outcome (list T) :=
  '(result, i, j) ← _merge_while [] 0 0;
  let result := result ++ slice_from left i in
  let result := result ++ slice_from right j in
  Returns result.
End _merge.

Equations? merge_sort (data : list T) : outcome (list T)
    by wf (length data) lt :=
  merge_sort data :=
    if decide (len data <= 1) then Returns (copy data)
    else
      let mid := len data / 2 in
      left ← merge_sort (slice_to data mid);
      right ← merge_sort (slice_from data mid);
      _merge left right.
Proof.
  all: subst mid; unfold slice_to, slice_from, slice_bound, norm_index, len in *.
  all: assert (0 < Z.of_nat (length data) / 2 < Z.of_nat (length data))
    by (split; [apply Z.div_str_pos | apply Z.div_lt]; lia).
  all: destruct (Z.ltb_spec (Z.of_nat (length data) / 2) 0); try lia.
  - rewrite length_drop. lia.
  - rewrite length_take. lia.
Qed.

(** *** Insertion Sort *)

(** The inner [while] loop: elements with a strictly greater key move
    one place to the right. *)
Equations? insertion_sort_while (current_key : K) (arr : list T) (j : Z)
    : outcome (list T * Z)
    by wf (Z.to_nat (j + 1)) lt :=
  insertion_sort_while current_key arr j :=
    if decide (j >= 0) then
      a_j ← getitem arr j;
      if py_gt (key a_j) current_key then
        a_j ← getitem arr j;
        arr ← setitem arr (j + 1) a_j;
        insertion_sort_while current_key arr (j - 1)
      else Returns (arr, j)
    else Returns (arr, j).
Proof. lia. Qed.

(** The body of the [for] loop, at position [i]. *)
Definition insertion_sort_body (arr : list T) (i : Z) : outcome (list T) :=
  current ← getitem arr i;
  let current_key := key current in
  let j := i - 1 in
  '(arr, j) ← insertion_sort_while current_key arr j;
  setitem arr (j + 1) current.

Fixpoint insertion_sort_for (arr : list T) (indices : list Z)
    : outcome (list T) :=
  match indices with
  | [] => Returns arr
  | i :: indices =>
      arr ← insertion_sort_body arr i;
      insertion_sort_for arr indices
  end.

Definition insertion_sort (data : list T) : outcome (list T) :=
  let arr := copy data in
  arr ← insertion_sort_for arr (range 1 (len arr));
  Returns arr.

(** *** Binary Search

    Python's [int | None] result is an [option Z]. *)

Section binary_search.
Variables (sorted_data : list T) (target : K).

Equations? binary_search_while (low high : Z) : outcome (option Z)
    by wf (Z.to_nat (high - low + 1)) lt :=
  binary_search_while low high :=
    if decide (low <= high) then
      let mid := (low + high) / 2 in
      m ← getitem sorted_data mid;
      let mid_val := key m in
      if py_eq mid_val target then Returns (Some mid)
      else if py_lt mid_val target then binary_search_while (mid + 1) high
      else binary_search_while low (mid - 1)
    else Returns None.
Proof.
  all: assert (low <= mid <= high)
    by (subst mid; split;
        [apply Z.div_le_lower_bound | apply Z.div_le_upper_bound]; lia).
  all: lia.
Qed.

Definition binary_search : outcome (option Z) :=
  let '(low, high) := (0, len sorted_data - 1) in
  binary_search_while low high.
End binary_search.

(** *** Linear Search *)

Fixpoint linear_search_for (items : list (Z * T)) (target : K)
    : outcome (option Z) :=
  match items with
  | [] => Returns None
  | (i, item) :: items =>
      if py_eq (key item) target then Returns (Some i)
      else linear_search_for items target
  end.

Definition linear_search (data : list T) (target : K) : outcome (option Z) :=
  linear_search_for (enumerate data) target.

End Algorithms.
End Algorithms.

(** ** Python floats

    A Python [float] is a C double.  The operations are those of
    [SpecFloat] at the binary64 format; a finite number
    [S754_finite s m e] is [(-1)^s * m * 2^e]. *)

Module Float.
Definition prec : Z := 53.
Definition emax : Z := 1024.

Definition float : Type := spec_float.

(** [0.0] *)
Definition zero : float := S754_zero false.

Definition is_finite (x : float) : bool :=
  match x with
  | S754_zero _ | S754_finite _ _ _ => true
  | _ => false
  end.

(** [x] is a number of the format: its mantissa has at most 53 bits,
    and exactly 53 unless the exponent is the least one. *)
Definition valid (x : float) : bool := valid_binary prec emax x.

(** [x <= y] and [x < y] *)
Definition leb (x y : float) : bool := SFleb x y.
Definition ltb (x y : float) : bool := SFltb x y.

(** [x - y], [x * y] and [x / y] for a non-zero [y] *)
Definition sub (x y : float) : float := SFsub prec emax x y.
Definition mul (x y : float) : float := SFmul prec emax x y.
Definition div (x y : float) : float := SFdiv prec emax x y.

(** [float(n)]: the double nearest to the integer [n], a tie to the
    even mantissa; an infinity when [n] is beyond the largest double. *)
Definition of_int (n : Z) : float := binary_normalize prec emax n 0 false.

(** The double nearest to [n / d] for integers [n >= 0] and [d > 0],
    with the sign [s]. *)
Definition of_ratio (s : bool) (n d : Z) : float :=
  let '(m, e, l) := SFdiv_core_binary prec emax n 0 d 0 in
  binary_round_aux prec emax s m e l.

(** The integer nearest to [a / b] for [b > 0], a tie to the even one. *)
Definition div_half_even (a b : Z) : Z :=
  let q := a / b in
  match 2 * (a mod b) ?= b with
  | Lt => q
  | Gt => q + 1
  | Eq => if Z.even q then q else q + 1
  end.

(** The integer nearest to [100 * m * 2^e]. *)
Definition hundredths (m : positive) (e : Z) : Z :=
  match e with
  | Zneg p => div_half_even (100 * Zpos m) (2 ^ Zpos p)
  | _ => 100 * Zpos m * 2 ^ e
  end.

(** The double nearest to [n / 100], with the sign [s]. *)
Definition of_hundredths (s : bool) (n : Z) : float :=
  if decide (n = 0) then S754_zero s else of_ratio s n 100.

(** [round(x, 2)].  CPython writes the exact value of [x] as a decimal
    string correctly rounded to two places after the point, a tie to the
    even digit, and reads the string back as the nearest double; the
    sign is kept, also of a zero, and an infinity or a [nan] is
    returned as it is. *)
Definition round2 (x : float) : float :=
  match x with
  | S754_finite s m e => of_hundredths s (hundredths m e)
  | _ => x
  end.

(** [v] is the double nearest to a whole number of hundredths. *)
Definition two_decimals (v : float) : Prop :=
  exists (s : bool) (n : Z), 0 <= n /\ v = of_hundredths s n.

(** [v] is a zero, or a number or an infinity of the sign [s]. *)
Definition sign_class (s : bool) (v : float) : Prop :=
  match v with
  | S754_zero _ => True
  | S754_infinity s' | S754_finite s' _ _ => s' = s
  | S754_nan => False
  end.

(** [v] is a zero or a finite number below [2 ^ B] in magnitude. *)
Definition within (B : Z) (v : float) : Prop :=
  match v with
  | S754_zero _ => True
  | S754_finite _ m e => Zpos (digits2_pos m) + e <= B /\ e <= emax - prec
  | _ => False
  end.
End Float.

(** A performance counter: each reading is a finite double, and no
    reading is below an earlier one. *)
Definition monotonic (timer : nat -> Float.float) : Prop :=
  (forall n : nat,
     Float.is_finite (timer n) = true /\ Float.valid (timer n) = true) /\
  (forall n m : nat, (n <= m)%nat -> Float.leb (timer n) (timer m) = true).

(** The readings are seconds from a start: zero or more, and at most
    [2 ^ 62]. *)
Definition seconds (timer : nat -> Float.float) : Prop :=
  forall n : nat,
    Float.leb Float.zero (timer n) = true /\
    Float.leb (timer n) (Float.of_int (2 ^ 62)) = true.

(** A counter that advances 10 microseconds from one reading to the
    next, for eight readings: the [n]-th reading is the Python float
    [n / 100000]. *)
Definition clock_10us (n : nat) : Float.float :=
  Float.of_ratio false (Z.of_nat (n `min` 8)) 100000.

(** ** The algorithms over a store of list objects

    Python lists are mutable objects reached through references, and an
    assignment [arr[j + 1] = arr[j]] changes the object every alias sees.
    The store model keeps the objects in a heap and passes references, so
    that what a call writes, and to which object, is part of the model.
    The benchmark harnesses also read a timer: the [n]-th reading of the
    performance counter is the float [timer n], in seconds. *)

Module Store.
Section Store.
Context {T K : Type} `{PyOrd K}.
Variable key : T -> K.
Variable timer : nat -> Float.float.

Definition ref : Type := nat.

Record state : Type := State {
  objects : gmap ref (list T);
  ticks : nat
}.

(** A computation ends in an outcome and a final state; the state
    survives a raised exception. *)
Definition M (A : Type) : Type := state -> outcome A * state.

#[export] Instance M_ret : MRet M := fun A a s => (Returns a, s).

#[export] Instance M_bind : MBind M := fun A B f m s =>
  match m s with
  | (Returns a, s') => f a s'
  | (Raises e, s') => (Raises e, s')
  end.

Definition raise {A : Type} (e : exn) : M A := fun s => (Raises e, s).

Definition lift {A : Type} (o : outcome A) : M A := fun s => (o, s).

(** The state after the object at [r] becomes [l]. *)
Definition write (r : ref) (l : list T) (s : state) : state :=
  {| objects := <[r := l]> (objects s); ticks := ticks s |}.

(** A new list object. *)
Definition new (l : list T) : M ref := fun s =>
  let r := fresh (dom (objects s)) in (Returns r, write r l s).

Definition load (r : ref) : M (list T) := fun s =>
  match objects s !! r with
  | Some l => (Returns l, s)
  | None => (Raises SystemError, s)
  end.

Definition store (r : ref) (l : list T) : M unit := fun s =>
  (Returns tt, write r l s).

(** [len(r)] *)
Definition py_len (r : ref) : M Z := l ← load r; mret (len l).

(** [r[i]] *)
Definition py_getitem (r : ref) (i : Z) : M T :=
  l ← load r; lift (getitem l i).

(** [r[i] = x] *)
Definition py_setitem (r : ref) (i : Z) (x : T) : M unit :=
  l ← load r; l' ← lift (setitem l i x); store r l'.

(** [r.append(x)] *)
Definition py_append (r : ref) (x : T) : M unit :=
  l ← load r; store r (l ++ [x]).

(** [r.extend(other)] *)
Definition py_extend (r other : ref) : M unit :=
  l ← load r; o ← load other; store r (l ++ o).

(** [r[:i]], a new list *)
Definition py_slice_to (r : ref) (i : Z) : M ref :=
  l ← load r; new (slice_to l i).

(** [r[i:]], a new list *)
Definition py_slice_from (r : ref) (i : Z) : M ref :=
  l ← load r; new (slice_from l i).

(** [list(r)], a new list *)
Definition py_list (r : ref) : M ref := l ← load r; new (copy l).

(** *** Merge Sort *)

Fixpoint _merge_while (fuel : nat) (left right result : ref) (i j : Z)
    : M (Z * Z) :=
  match fuel with
  | O => raise OutOfFuel
  | S fuel =>
      len_left ← py_len left;
      len_right ← py_len right;
      if decide (i < len_left /\ j < len_right) then
        l_i ← py_getitem left i;
        r_j ← py_getitem right j;
        if py_le (key l_i) (key r_j) then
          l_i ← py_getitem left i;
          py_append result l_i;;
          _merge_while fuel left right result (i + 1) j
        else
          r_j ← py_getitem right j;
          py_append result r_j;;
          _merge_while fuel left right result i (j + 1)
      else mret (i, j)
  end.

Definition _merge (left right : ref) : M ref :=
  result ← new [];
  len_left ← py_len left;
  len_right ← py_len right;
  '(i, j) ← _merge_while (Z.to_nat (len_left + len_right) + 1)
              left right result 0 0;
  rest ← py_slice_from left i;
  py_extend result rest;;
  rest ← py_slice_from right j;
  py_extend result rest;;
  mret result.

Fixpoint merge_sort_rec (fuel : nat) (data : ref) : M ref :=
  match fuel with
  | O => raise OutOfFuel
  | S fuel =>
      len_data ← py_len data;
      if decide (len_data <= 1) then py_list data
      else
        let mid := len_data / 2 in
        half ← py_slice_to data mid;
        left ← merge_sort_rec fuel half;
        half ← py_slice_from data mid;
        right ← merge_sort_rec fuel half;
        _merge left right
  end.

Definition merge_sort (data : ref) : M ref :=
  len_data ← py_len data;
  merge_sort_rec (Z.to_nat len_data + 1) data.

(** *** Insertion Sort *)

Fixpoint insertion_sort_while (fuel : nat) (current_key : K) (arr : ref)
    (j : Z) : M Z :=
  match fuel with
  | O => raise OutOfFuel
  | S fuel =>
      if decide (j >= 0) then
        a_j ← py_getitem arr j;
        if py_gt (key a_j) current_key then
          a_j ← py_getitem arr j;
          py_setitem arr (j + 1) a_j;;
          insertion_sort_while fuel current_key arr (j - 1)
        else mret j
      else mret j
  end.

Definition insertion_sort_body (arr : ref) (i : Z) : M unit :=
  current ← py_getitem arr i;
  let current_key := key current in
  let j := i - 1 in
  j ← insertion_sort_while (Z.to_nat i + 1) current_key arr j;
  py_setitem arr (j + 1) current.

Fixpoint insertion_sort_for (arr : ref) (indices : list Z) : M unit :=
  match indices with
  | [] => mret tt
  | i :: indices =>
      insertion_sort_body arr i;;
      insertion_sort_for arr indices
  end.

Definition insertion_sort (data : ref) : M ref :=
  arr ← py_list data;
  len_arr ← py_len arr;
  insertion_sort_for arr (range 1 len_arr);;
  mret arr.

(** *** Binary Search and Linear Search *)

Fixpoint binary_search_while (fuel : nat) (sorted_data : ref) (target : K)
    (low high : Z) : M (option Z) :=
  match fuel with
  | O => raise OutOfFuel
  | S fuel =>
      if decide (low <= high) then
        let mid := (low + high) / 2 in
        m ← py_getitem sorted_data mid;
        let mid_val := key m in
        if py_eq mid_val target then mret (Some mid)
        else if py_lt mid_val target then
          binary_search_while fuel sorted_data target (mid + 1) high
        else
          binary_search_while fuel sorted_data target low (mid - 1)
      else mret None
  end.

Definition binary_search (sorted_data : ref) (target : K) : M (option Z) :=
  len_data ← py_len sorted_data;
  let '(low, high) := (0, len_data - 1) in
  binary_search_while (Z.to_nat len_data + 1) sorted_data target low high.

(** The iteration of [enumerate(data)] reads the list object at each
    step. *)
Fixpoint linear_search_for (fuel : nat) (data : ref) (target : K) (i : Z)
    : M (option Z) :=
  match fuel with
  | O => raise OutOfFuel
  | S fuel =>
      len_data ← py_len data;
      if decide (i < len_data) then
        item ← py_getitem data i;
        if py_eq (key item) target then mret (Some i)
        else linear_search_for fuel data target (i + 1)
      else mret None
  end.

Definition linear_search (data : ref) (target : K) : M (option Z) :=
  len_data ← py_len data;
  linear_search_for (Z.to_nat len_data + 1) data target 0.

(** *** Benchmarks *)

(** One reading of the performance counter. *)
Definition read_timer : M Float.float := fun s =>
  (Returns (timer (ticks s)),
   {| objects := objects s; ticks := S (ticks s) |}).

Fixpoint repeat_call {A : Type} (stmt : M A) (number : nat) : M unit :=
  match number with
  | O => mret tt
  | S number => stmt;; repeat_call stmt number
  end.

(** The largest [Py_ssize_t] of a 64-bit CPython. *)
Definition PY_SSIZE_T_MAX : Z := 2 ^ 63 - 1.

(** [timeit.timeit(stmt, number=number)].  The loop runs over
    [itertools.repeat(None, number)], which raises [OverflowError] when
    [number] is not a [Py_ssize_t]; this is before the timer is read.
    Otherwise the result is the seconds that [number] calls of [stmt]
    take, between two readings of the timer; with a negative [number]
    no call is made. *)
Definition timeit {A : Type} (stmt : M A) (number : Z) : M Float.float :=
  if decide (- PY_SSIZE_T_MAX - 1 <= number <= PY_SSIZE_T_MAX) then
    t0 ← read_timer;
    repeat_call stmt (Z.to_nat number);;
    t1 ← read_timer;
    mret (Float.sub t1 t0)
  else raise OverflowError.

(** The built-in [sorted(data, key=key)]: a new list in the order of
    [<] on the keys, the elements of equal key in the order they have
    in [data]. *)
Fixpoint sorted_insert (x : T) (l : list T) : list T :=
  match l with
  | [] => [x]
  | y :: l' =>
      if py_lt (key y) (key x) then y :: sorted_insert x l' else x :: l
  end.

Definition sorted_list (l : list T) : list T := foldr sorted_insert [] l.

Definition py_sorted (data : ref) : M ref :=
  l ← load data; new (sorted_list l).

(** [target in [key(x) for x in data]] *)
Definition py_in_keys (target : K) (data : ref) : M bool :=
  l ← load data; mret (existsb (fun k => py_eq k target) (map key l)).

(** [x / n] for a float [x] and an integer [n].  The integer is
    converted to a float, which raises [OverflowError] when it is beyond
    the largest double; a zero divisor raises [ZeroDivisionError]. *)
Definition py_truediv (x : Float.float) (n : Z) : M Float.float :=
  match Float.of_int n with
  | S754_infinity _ | S754_nan => raise OverflowError
  | S754_zero _ => raise ZeroDivisionError
  | S754_finite _ _ _ as d => mret (Float.div x d)
  end.

(** [round(total / repeats * 1000, 2)] *)
Definition mean_ms (total : Float.float) (repeats : Z) : M Float.float :=
  mean ← py_truediv total repeats;
  mret (Float.round2 (Float.mul mean (Float.of_int 1000))).

Definition benchmark_sort (data : ref) (repeats : Z)
    : M (gmap string Float.float) :=
  merge_time ← timeit (merge_sort data) repeats;
  builtin_time ← timeit (py_sorted data) repeats;
  merge_sort_ms ← mean_ms merge_time repeats;
  builtin_sorted_ms ← mean_ms builtin_time repeats;
  mret (<["builtin_sorted_ms" := builtin_sorted_ms]>
        (<["merge_sort_ms" := merge_sort_ms]> ∅)).

Definition benchmark_search (data : ref) (target : K) (repeats : Z)
    : M (gmap string Float.float) :=
  binary_time ← timeit (binary_search data target) repeats;
  linear_time ← timeit (linear_search data target) repeats;
  builtin_time ← timeit (py_in_keys target data) repeats;
  binary_search_ms ← mean_ms binary_time repeats;
  linear_search_ms ← mean_ms linear_time repeats;
  builtin_in_ms ← mean_ms builtin_time repeats;
  mret (<["builtin_in_ms" := builtin_in_ms]>
        (<["linear_search_ms" := linear_search_ms]>
         (<["binary_search_ms" := binary_search_ms]> ∅))).

(** *** What a run does to the store *)

(** [m] returns from [s], with a value and a final state in [Q]. *)
Definition returns {A : Type} (m : M A) (s : state)
    (Q : A -> state -> Prop) : Prop :=
  exists a s', m s = (Returns a, s') /\ Q a s'.

(** Every object of [s] is in [s'] with the same elements. *)
Definition unchanged (s s' : state) : Prop :=
  forall r l, objects s !! r = Some l -> objects s' !! r = Some l.
End Store.
End Store.

(** * Specification predicates *)

Section Predicates.
Context {T K : Type} `{PyOrd K}.
Variable key : T -> K.

(** Non-descending order of the keys, position by position. *)
Definition non_descending (l : list T) : Prop :=
  forall (i j : nat) (x y : T),
    (i <= j)%nat -> l !! i = Some x -> l !! j = Some y -> key_le key x y.

(** The same order as a check: the [is_sorted] of the specification. *)
Fixpoint is_sorted (l : list T) : bool :=
  match l with
  | [] => true
  | x :: l' =>
      match l' with
      | [] => true
      | y :: _ => py_le (key x) (key y) && is_sorted l'
      end
  end.

(** The elements of [l] whose key is [k], in the order of [l]. *)
Definition with_key (k : K) (l : list T) : list T :=
  filter (fun x => key x = k) l.

(** Position [i] holds the first element of [l] whose key is [k]. *)
Definition first_match (k : K) (l : list T) (i : Z) : Prop :=
  0 <= i /\
  (exists x, l !! Z.to_nat i = Some x /\ key x = k) /\
  forall (j : nat) (y : T), (j < Z.to_nat i)%nat -> l !! j = Some y -> key y <> k.

(** [out] keeps the elements of equal key in the order they have in
    [data]. *)
Definition stable (data out : list T) : Prop :=
  forall k : K, with_key k out = with_key k data.
End Predicates.

(** * Facts about Python lists *)

Section PyListFacts.
Context {T : Type}.
Implicit Types (l : list T) (i : Z) (x : T).

Lemma len_nonneg l : 0 <= len l.
Proof. unfold len. lia. Qed.

Lemma len_app l1 l2 : len (l1 ++ l2) = len l1 + len l2.
Proof. unfold len. rewrite length_app. lia. Qed.

Lemma norm_index_nonneg l i : 0 <= i -> norm_index l i = i.
Proof. intros Hi. unfold norm_index. destruct (Z.ltb_spec i 0); lia. Qed.

Lemma getitem_Returns l i x :
  0 <= i -> l !! Z.to_nat i = Some x -> getitem l i = Returns x.
Proof.
  intros Hi Hx. unfold getitem. rewrite norm_index_nonneg by done.
  apply lookup_lt_Some in Hx as Hlt.
  destruct (Z.leb_spec 0 i); [|lia].
  destruct (Z.ltb_spec i (len l)) as [_|Hge]; [|unfold len in Hge; lia].
  simpl. by rewrite Hx.
Qed.

Lemma getitem_in_range l i :
  0 <= i < len l ->
  exists x, l !! Z.to_nat i = Some x /\ getitem l i = Returns x.
Proof.
  intros [Hi Hlt].
  destruct (lookup_lt_is_Some_2 l (Z.to_nat i)) as [x Hx];
    [unfold len in Hlt; lia|].
  exists x. split; [done|]. by apply getitem_Returns.
Qed.

Lemma setitem_in_range l i x :
  0 <= i < len l -> setitem l i x = Returns (<[Z.to_nat i := x]> l).
Proof.
  intros [Hi Hlt]. unfold setitem. rewrite norm_index_nonneg by done.
  destruct (Z.leb_spec 0 i); [|lia].
  destruct (Z.ltb_spec i (len l)); [done|lia].
Qed.

Lemma slice_bound_in_range l i :
  0 <= i <= len l -> slice_bound l i = Z.to_nat i.
Proof.
  intros [Hi Hle]. unfold slice_bound. rewrite norm_index_nonneg by done. lia.
Qed.

Lemma slice_to_take l i : 0 <= i <= len l -> slice_to l i = take (Z.to_nat i) l.
Proof. intros Hi. unfold slice_to. by rewrite slice_bound_in_range. Qed.

Lemma slice_from_drop l i : 0 <= i <= len l -> slice_from l i = drop (Z.to_nat i) l.
Proof. intros Hi. unfold slice_from. by rewrite slice_bound_in_range. Qed.

Lemma slice_to_from l i : slice_to l i ++ slice_from l i = l.
Proof. apply take_drop. Qed.
End PyListFacts.

(** * The order of the keys *)

Section KeyOrder.
Context {T K : Type} `{PyOrd K}.
Variable key : T -> K.

#[export] Instance key_le_trans : Transitive (key_le key).
Proof. intros x y z. unfold key_le. apply py_le_trans. Qed.

#[export] Instance key_le_total : Total (key_le key).
Proof. intros x y. unfold key_le. apply py_le_total. Qed.

#[export] Instance key_le_refl : Reflexive (key_le key).
Proof. intros x. by destruct (key_le_total x x). Qed.

Lemma py_gt_true (a b : K) : py_gt a b = true -> py_le a b = false.
Proof. rewrite py_gt_spec. by destruct (py_le a b). Qed.

Lemma py_gt_false (a b : K) : py_gt a b = false -> py_le a b = true.
Proof. rewrite py_gt_spec. by destruct (py_le a b). Qed.

Lemma py_le_false (a b : K) : py_le a b = false -> py_le b a = true /\ a <> b.
Proof.
  intros Hab. destruct (py_le_total a b) as [?|Hba]; [congruence|].
  split; [done|]. intros ->. congruence.
Qed.

Lemma py_le_refl (a : K) : py_le a a = true.
Proof. by destruct (py_le_total a a). Qed.
End KeyOrder.

(** * Sorted lists and stability *)

Section Sorted.
Context {T K : Type} `{PyOrd K}.
Variable key : T -> K.
Implicit Types (l : list T) (x y : T) (k : K).

Local Abbreviation sorted := (StronglySorted (key_le key)).

Lemma sorted_non_descending l : sorted l <-> non_descending key l.
Proof.
  split.
  - induction 1 as [|x l Hs IH Hall]; intros i j a b Hij Ha Hb.
    + by rewrite lookup_nil in Ha.
    + destruct i as [|i], j as [|j]; simpl in *.
      * assert (a = b) as -> by congruence. reflexivity.
      * injection Ha as <-. rewrite Forall_lookup in Hall. by eapply Hall.
      * lia.
      * eapply (IH i j); [lia|done..].
  - induction l as [|x l IH]; intros Hnd; constructor.
    + apply IH. intros i j a b Hij Ha Hb.
      apply (Hnd (S i) (S j)); [lia|done..].
    + apply Forall_lookup. intros i y Hy.
      apply (Hnd 0%nat (S i)); [lia|done..].
Qed.

Lemma is_sorted_Sorted l : is_sorted key l = true <-> Sorted (key_le key) l.
Proof.
  induction l as [|x [|y l] IH]; simpl.
  - split; [constructor|done].
  - split; [repeat constructor|done].
  - rewrite andb_true_iff, IH. split.
    + intros [Hxy Hs]. constructor; [done|]. by constructor.
    + intros Hs. inversion Hs as [|? ? Hs' Hhd]; subst.
      inversion Hhd; subst. done.
Qed.

Lemma is_sorted_spec l : is_sorted key l = true <-> non_descending key l.
Proof.
  rewrite is_sorted_Sorted, <- sorted_non_descending. split.
  - apply Sorted_StronglySorted, _.
  - apply StronglySorted_Sorted.
Qed.

Lemma with_key_cons k x l :
  with_key key k (x :: l) =
    if decide (key x = k) then x :: with_key key k l else with_key key k l.
Proof. unfold with_key. by rewrite filter_cons. Qed.

Lemma with_key_app k l1 l2 :
  with_key key k (l1 ++ l2) = with_key key k l1 ++ with_key key k l2.
Proof. apply filter_app. Qed.

Lemma with_key_absent k l :
  Forall (fun z => key z <> k) l -> with_key key k l = [].
Proof.
  induction 1 as [|z l Hz _ IH]; [done|].
  rewrite with_key_cons. by rewrite decide_False.
Qed.

Lemma with_key_elem_of k x l : x ∈ with_key key k l -> x ∈ l /\ key x = k.
Proof. unfold with_key. rewrite list_elem_of_filter. tauto. Qed.

Lemma sorted_head_le x y l : sorted (x :: l) -> y ∈ x :: l -> key_le key x y.
Proof.
  intros Hs Hy. apply StronglySorted_inv in Hs as [_ Hall].
  apply elem_of_cons in Hy as [->|Hy]; [reflexivity|].
  rewrite Forall_forall in Hall. by apply Hall.
Qed.

(** A list sorted by key is determined by its groups of equal key. *)
Lemma sorted_stable_unique l1 l2 :
  sorted l1 -> sorted l2 -> stable key l1 l2 -> l1 = l2.
Proof.
  revert l2. induction l1 as [|x l1 IH]; intros [|y l2] Hs1 Hs2 Hst.
  - done.
  - specialize (Hst (key y)). rewrite with_key_cons, decide_True in Hst by done.
    discriminate.
  - specialize (Hst (key x)). rewrite (with_key_cons _ x), decide_True in Hst by done.
    discriminate.
  - assert (key x = key y) as Hk.
    { apply py_le_antisym.
      - apply (sorted_head_le x y l1 Hs1).
        assert (y ∈ with_key key (key y) (x :: l1)) as Hin.
        { rewrite <- (Hst (key y)), with_key_cons, decide_True by done. left. }
        by apply with_key_elem_of in Hin as [? _].
      - apply (sorted_head_le y x l2 Hs2).
        assert (x ∈ with_key key (key x) (y :: l2)) as Hin.
        { rewrite (Hst (key x)), with_key_cons, decide_True by done. left. }
        by apply with_key_elem_of in Hin as [? _]. }
    assert (x = y) as ->.
    { specialize (Hst (key x)).
      rewrite !with_key_cons, !decide_True in Hst by done. congruence. }
    f_equal. apply IH.
    + by apply StronglySorted_inv in Hs1 as [? _].
    + by apply StronglySorted_inv in Hs2 as [? _].
    + intros k. specialize (Hst k). rewrite !with_key_cons in Hst.
      destruct (decide (key y = k)); congruence.
Qed.

(** The merge of two lists takes an element of the right list only when
    its key is strictly less than every key left in the left list, so
    equal keys come out left list first. *)
Lemma with_key_list_merge k l1 l2 :
  sorted l1 ->
  with_key key k (list_merge (key_le key) l1 l2) =
    with_key key k l1 ++ with_key key k l2.
Proof.
  intros Hs1. revert l2. induction Hs1 as [|x1 l1 Hs1 IH1 Hall1]; intros l2.
  - by rewrite list_merge_nil_l.
  - induction l2 as [|x2 l2 IH2].
    + rewrite list_merge_nil_r. unfold with_key at 3. simpl.
      by rewrite app_nil_r.
    + rewrite list_merge_cons. destruct (decide (key_le key x1 x2)) as [Hle|Hnle].
      * rewrite with_key_cons, IH1, (with_key_cons _ x1).
        by destruct (decide (key x1 = k)).
      * rewrite with_key_cons, IH2, (with_key_cons _ x2).
        destruct (decide (key x2 = k)) as [Hk|Hk]; [|done].
        rewrite (with_key_absent k (x1 :: l1)); [done|].
        assert (forall z, key_le key x1 z -> key z <> k) as Hne.
        { intros z Hz Hzk. apply Hnle. unfold key_le in *. congruence. }
        constructor; [apply Hne; reflexivity|].
        eapply Forall_impl; [exact Hall1|]. exact Hne.
Qed.

Lemma sorted_list_merge l1 l2 :
  sorted l1 -> sorted l2 -> sorted (list_merge (key_le key) l1 l2).
Proof.
  intros Hs1 Hs2. apply Sorted_StronglySorted; [apply _|].
  apply Sorted_list_merge; [apply _|by apply StronglySorted_Sorted..].
Qed.
End Sorted.

(** * Merge Sort *)

Section MergeSortFacts.
Context {T K : Type} `{PyOrd K}.
Variable key : T -> K.
Import Algorithms.

Local Abbreviation sorted := (StronglySorted (key_le key)).

(** The loop leaves in [result], followed by the two unread tails, the
    merge of what was unread when it started. *)
Lemma _merge_while_spec (left right result : list T) (i j : Z) :
  0 <= i <= len left -> 0 <= j <= len right ->
  exists res i' j',
    _merge_while key left right result i j = Returns (res, i', j') /\
    0 <= i' <= len left /\ 0 <= j' <= len right /\
    res ++ drop (Z.to_nat i') left ++ drop (Z.to_nat j') right =
      result ++ list_merge (key_le key)
                  (drop (Z.to_nat i) left) (drop (Z.to_nat j) right).
Proof.
  set (P := fun result i j =>
    exists res i' j',
      _merge_while key left right result i j = Returns (res, i', j') /\
      0 <= i' <= len left /\ 0 <= j' <= len right /\
      res ++ drop (Z.to_nat i') left ++ drop (Z.to_nat j') right =
        result ++ list_merge (key_le key)
                    (drop (Z.to_nat i) left) (drop (Z.to_nat j) right)).
  change (0 <= i <= len left -> 0 <= j <= len right -> P result i j).
  remember (Z.to_nat (len left - i) + Z.to_nat (len right - j))%nat as n eqn:Hn.
  revert result i j Hn. induction n as [n IH] using lt_wf_ind.
  intros result i j -> Hi Hj. unfold P. rewrite _merge_while_equation_1.
  destruct (decide (i < len left /\ j < len right)) as [[Hil Hjr]|Hstop].
  - destruct (getitem_in_range left i) as (l_i & Hli & ->); [lia|].
    destruct (getitem_in_range right j) as (r_j & Hrj & ->); [lia|].
    cbn. rewrite (drop_S left l_i (Z.to_nat i) Hli).
    rewrite (drop_S right r_j (Z.to_nat j) Hrj).
    rewrite list_merge_cons.
    destruct (decide (key_le key l_i r_j)) as [Hle|Hle]; unfold key_le in Hle.
    + rewrite Hle.
      assert (Hrec : P (result ++ [l_i]) (i + 1) j)
        by (eapply IH; [|reflexivity|lia|lia]; lia).
      destruct Hrec as (res & i' & j' & -> & ? & ? & Heq).
      exists res, i', j'. repeat split; try lia.
      rewrite Heq, <- app_assoc. simpl.
      replace (Z.to_nat (i + 1)) with (S (Z.to_nat i)) by lia.
      by rewrite <- (drop_S right r_j (Z.to_nat j) Hrj).
    + apply not_true_is_false in Hle. rewrite Hle.
      assert (Hrec : P (result ++ [r_j]) i (j + 1))
        by (eapply IH; [|reflexivity|lia|lia]; lia).
      destruct Hrec as (res & i' & j' & -> & ? & ? & Heq).
      exists res, i', j'. repeat split; try lia.
      rewrite Heq, <- app_assoc. simpl.
      replace (Z.to_nat (j + 1)) with (S (Z.to_nat j)) by lia.
      by rewrite <- (drop_S left l_i (Z.to_nat i) Hli).
  - exists result, i, j. repeat split; try lia. f_equal.
    destruct (decide (i < len left)) as [Hil|Hil].
    + rewrite (drop_ge right) by (unfold len in *; lia).
      by rewrite list_merge_nil_r, app_nil_r.
    + rewrite (drop_ge left) by (unfold len in *; lia).
      by rewrite list_merge_nil_l.
Qed.

(** [_merge] is the merge of its two arguments, left first on ties. *)
Lemma _merge_list_merge (left right : list T) :
  _merge key left right = Returns (list_merge (key_le key) left right).
Proof.
  unfold _merge.
  destruct (_merge_while_spec left right [] 0 0)
    as (res & i' & j' & -> & Hi & Hj & Heq);
    [pose proof (len_nonneg left); lia|pose proof (len_nonneg right); lia|].
  cbn. rewrite slice_from_drop, slice_from_drop by done.
  by rewrite <- app_assoc, Heq.
Qed.

Lemma short_sorted (l : list T) : len l <= 1 -> sorted l.
Proof.
  destruct l as [|x [|y l]]; unfold len; simpl; intros Hl; try lia.
  - constructor.
  - repeat constructor.
Qed.

Lemma merge_sort_spec (data : list T) :
  exists out,
    merge_sort key data = Returns out /\
    out ≡ₚ data /\ sorted out /\ stable key data out.
Proof.
  remember (length data) as n eqn:Hn. revert data Hn.
  induction n as [n IH] using lt_wf_ind. intros data ->.
  rewrite merge_sort_equation_1.
  destruct (decide (len data <= 1)) as [Hshort|Hlong].
  - exists data. split; [done|]. split; [done|]. split; [|done].
    by apply short_sorted.
  - cbv zeta. set (mid := len data / 2).
    assert (0 < mid < len data) as Hmid
      by (subst mid; split; [apply Z.div_str_pos | apply Z.div_lt]; lia).
    destruct (IH (length (slice_to data mid))) with (data := slice_to data mid)
      as (l & -> & Hlp & Hls & Hlk); [|done|].
    { rewrite slice_to_take, length_take by lia. unfold len in Hmid. lia. }
    destruct (IH (length (slice_from data mid))) with (data := slice_from data mid)
      as (r & -> & Hrp & Hrs & Hrk); [|done|].
    { rewrite slice_from_drop, length_drop by lia. unfold len in Hmid. lia. }
    cbn. rewrite _merge_list_merge.
    exists (list_merge (key_le key) l r). split; [done|]. split; [|split].
    + rewrite merge_Permutation, Hlp, Hrp. by rewrite slice_to_from.
    + by apply sorted_list_merge.
    + intros k. rewrite with_key_list_merge by done.
      rewrite Hlk, Hrk, <- with_key_app. by rewrite slice_to_from.
Qed.
End MergeSortFacts.

(** * Insertion Sort *)

Section InsertionSortFacts.
Context {T K : Type} `{PyOrd K}.
Variable key : T -> K.
Import Algorithms.

Local Abbreviation sorted := (StronglySorted (key_le key)).

(** The inner loop, entered with the hole just after the prefix [A]:
    it moves the longest suffix [A2] of [A] with keys strictly greater
    than [current_key] one place right, and stops with the hole just
    after [A1]. *)
Lemma insertion_sort_while_spec (current_key : K) (A : list T) :
  forall (h : T) (R : list T),
  exists (A1 A2 : list T) (h' : T),
    insertion_sort_while key current_key (A ++ h :: R) (len A - 1) =
      Returns (A1 ++ h' :: A2 ++ R, len A1 - 1) /\
    A = A1 ++ A2 /\
    Forall (fun z => py_gt (key z) current_key = true) A2 /\
    (forall A0 a, A1 = A0 ++ [a] -> py_gt (key a) current_key = false).
Proof.
  induction A as [|a A IH] using rev_ind; intros h R;
    rewrite insertion_sort_while_equation_1.
  - exists [], [], h. repeat split; [constructor|].
    intros [|??] a; discriminate.
  - assert (len (A ++ [a]) - 1 = len A) as ->
      by (rewrite len_app; unfold len; simpl; lia).
    pose proof (len_nonneg A) as HA.
    rewrite decide_True by lia.
    assert (getitem ((A ++ [a]) ++ h :: R) (len A) = Returns a) as ->.
    { apply getitem_Returns; [done|]. unfold len. rewrite Nat2Z.id.
      rewrite <- app_assoc. apply list_lookup_middle. done. }
    cbn. destruct (py_gt (key a) current_key) eqn:Hgt.
    + assert (setitem ((A ++ [a]) ++ h :: R) (len A + 1) a
              = Returns (A ++ a :: a :: R)) as ->.
      { rewrite setitem_in_range
          by (rewrite !len_app; unfold len; simpl; lia).
        f_equal. replace (Z.to_nat (len A + 1)) with (length (A ++ [a]) + 0)%nat
          by (rewrite length_app; unfold len; simpl; lia).
        rewrite insert_app_r. simpl. by rewrite <- app_assoc. }
      cbn. destruct (IH a (a :: R)) as (A1 & A2 & h' & -> & -> & Hall & Hlast).
      exists A1, (A2 ++ [a]), h'. repeat split.
      * by rewrite <- (app_assoc A2).
      * by rewrite app_assoc.
      * apply Forall_app. split; [done|]. by constructor.
      * done.
    + exists (A ++ [a]), [], h. repeat split.
      * f_equal. f_equal. rewrite len_app. unfold len. simpl. lia.
      * by rewrite app_nil_r.
      * constructor.
      * intros A0 a0 Heq. apply app_inj_tail in Heq as [_ <-]. done.
Qed.

(** One pass of the [for] loop inserts the element at position [len P]
    into the prefix [P]. *)
Lemma insertion_sort_body_spec (P : list T) (c : T) (rest : list T) :
  exists A1 A2,
    insertion_sort_body key (P ++ c :: rest) (len P) =
      Returns ((A1 ++ c :: A2) ++ rest) /\
    P = A1 ++ A2 /\
    Forall (fun z => py_gt (key z) (key c) = true) A2 /\
    (forall A0 a, A1 = A0 ++ [a] -> py_gt (key a) (key c) = false).
Proof.
  unfold insertion_sort_body. pose proof (len_nonneg P) as HP.
  assert (getitem (P ++ c :: rest) (len P) = Returns c) as ->.
  { apply getitem_Returns; [done|]. unfold len. rewrite Nat2Z.id.
    by apply list_lookup_middle. }
  cbn.
  destruct (insertion_sort_while_spec (key c) P c rest)
    as (A1 & A2 & h' & -> & -> & Hall & Hlast).
  cbn. exists A1, A2. repeat split; [|done..].
  replace (len A1 - 1 + 1) with (len A1) by lia.
  rewrite setitem_in_range
    by (pose proof (len_nonneg A1); rewrite len_app; unfold len; simpl; lia).
  f_equal. unfold len. rewrite Nat2Z.id.
  replace (length A1) with (length A1 + 0)%nat by lia.
  rewrite insert_app_r. simpl. by rewrite <- app_assoc.
Qed.

(** Placing [c] between [A1] and [A2] keeps a sorted prefix sorted and
    puts [c] after the elements of equal key. *)
Lemma insert_sorted (A1 A2 : list T) (c : T) :
  sorted (A1 ++ A2) ->
  Forall (fun z => py_gt (key z) (key c) = true) A2 ->
  (forall A0 a, A1 = A0 ++ [a] -> py_gt (key a) (key c) = false) ->
  sorted (A1 ++ c :: A2).
Proof.
  intros Hs Hgt Hlast. apply StronglySorted_app in Hs as (H12 & Hs1 & Hs2).
  assert (Forall (key_le key c) A2) as HcA2.
  { eapply Forall_impl; [exact Hgt|]. intros z Hz. cbn in Hz.
    apply py_gt_true, py_le_false in Hz as [Hz _]. exact Hz. }
  assert (forall x, x ∈ A1 -> key_le key x c) as HA1c.
  { destruct A1 as [|a0 A1'] using rev_ind; [by intros x ?%elem_of_nil|].
    intros x Hx. assert (key_le key a0 c) as Ha0
      by (apply py_gt_false; by eapply Hlast).
    apply elem_of_app in Hx as [Hx|Hx%list_elem_of_singleton].
    - transitivity a0; [|done].
      apply (StronglySorted_app_1_elem_of _ _ _ _ _ Hs1 Hx). by left.
    - by subst. }
  apply StronglySorted_app_2.
  - intros x1 x2 Hx1 [->|Hx2]%elem_of_cons; [by apply HA1c|by apply H12].
  - done.
  - by constructor.
Qed.

Lemma insert_stable (A1 A2 : list T) (c : T) (k : K) :
  Forall (fun z => py_gt (key z) (key c) = true) A2 ->
  with_key key k (A1 ++ c :: A2) = with_key key k ((A1 ++ A2) ++ [c]).
Proof.
  intros Hgt. rewrite !with_key_app, !with_key_cons.
  destruct (decide (key c = k)) as [<-|Hk].
  - rewrite (with_key_absent key (key c) A2); [by rewrite app_nil_r|].
    eapply Forall_impl; [exact Hgt|]. intros z Hz Heq. cbn in Hz.
    apply py_gt_true in Hz. rewrite Heq, py_le_refl in Hz. discriminate.
  - unfold with_key at 4. simpl. by rewrite !app_nil_r.
Qed.

(** The [for] loop, entered with a sorted prefix [P] and the elements
    [rest] still to insert. *)
Lemma insertion_sort_for_spec (rest : list T) :
  forall P : list T,
    sorted P ->
    exists out,
      insertion_sort_for key (P ++ rest) (seqZ (len P) (len rest)) = Returns out /\
      out ≡ₚ P ++ rest /\ sorted out /\ stable key (P ++ rest) out.
Proof.
  induction rest as [|c rest IH]; intros P Hs.
  - exists P. rewrite app_nil_r. by repeat split.
  - rewrite seqZ_cons by (unfold len; simpl; lia). simpl.
    destruct (insertion_sort_body_spec P c rest)
      as (A1 & A2 & -> & -> & Hgt & Hlast).
    cbn. destruct (IH (A1 ++ c :: A2)) as (out & Hout & Hperm & Hso & Hst).
    { by apply insert_sorted. }
    exists out. split; [|split; [|split]].
    + rewrite <- Hout. f_equal. f_equal.
      * rewrite !len_app. unfold len. simpl. lia.
      * unfold len. simpl. lia.
    + rewrite Hperm. rewrite <- !app_assoc. simpl.
      by rewrite Permutation_middle.
    + done.
    + intros k. rewrite Hst.
      rewrite (with_key_app key k (A1 ++ c :: A2) rest), insert_stable by done.
      change (c :: rest) with ([c] ++ rest).
      by rewrite !with_key_app, <- !app_assoc.
Qed.

Lemma insertion_sort_spec (data : list T) :
  exists out,
    insertion_sort key data = Returns out /\
    out ≡ₚ data /\ sorted out /\ stable key data out.
Proof.
  unfold insertion_sort, copy, range. destruct data as [|x rest].
  - exists []. split; [done|]. split; [done|]. split; [constructor|done].
  - destruct (insertion_sort_for_spec rest [x]) as (out & Hout & Hrest);
      [repeat constructor|].
    exists out. split; [|exact Hrest].
    simpl in Hout. replace (len (x :: rest) - 1) with (len rest)
      by (unfold len; simpl; lia).
    change (len [x]) with 1 in Hout. by rewrite Hout.
Qed.
End InsertionSortFacts.

(** * Searching *)

Section SearchFacts.
Context {T K : Type} `{PyOrd K}.
Variable key : T -> K.
Import Algorithms.

Local Abbreviation sorted := (StronglySorted (key_le key)).

Lemma midpoint_bounds (low high : Z) :
  low <= high -> low <= (low + high) / 2 <= high.
Proof.
  intros Hle. split;
    [apply Z.div_le_lower_bound | apply Z.div_le_upper_bound]; lia.
Qed.

(** The loop returns, and an index it returns is inside the interval
    and holds the target key. *)
Lemma binary_search_while_returns (sorted_data : list T) (target : K)
    (low high : Z) :
  0 <= low -> high < len sorted_data ->
  exists r,
    binary_search_while key sorted_data target low high = Returns r /\
    forall i, r = Some i ->
      low <= i <= high /\
      exists x, sorted_data !! Z.to_nat i = Some x /\ key x = target.
Proof.
  remember (Z.to_nat (high - low + 1)) as n eqn:Hn.
  revert low high Hn. induction n as [n IH] using lt_wf_ind.
  intros low high -> Hlow Hhigh. rewrite binary_search_while_equation_1.
  destruct (decide (low <= high)) as [Hle|Hgt].
  - cbv zeta. pose proof (midpoint_bounds low high Hle) as Hmid.
    set (mid := (low + high) / 2) in *.
    destruct (getitem_in_range sorted_data mid) as (m & Hm & ->); [lia|].
    cbn. destruct (py_eq (key m) target) eqn:Heq.
    + exists (Some mid). split; [done|]. intros i [= <-].
      split; [done|]. exists m. split; [done|]. by apply py_eq_spec.
    + destruct (py_lt (key m) target).
      * destruct (IH (Z.to_nat (high - (mid + 1) + 1)) ltac:(lia)
                    (mid + 1) high eq_refl) as (r & -> & Hr); [lia|lia|].
        exists r. split; [done|]. intros i Hi.
        destruct (Hr i Hi) as [? ?]. split; [lia|done].
      * destruct (IH (Z.to_nat (mid - 1 - low + 1)) ltac:(lia)
                    low (mid - 1) eq_refl) as (r & -> & Hr); [lia|lia|].
        exists r. split; [done|]. intros i Hi.
        destruct (Hr i Hi) as [? ?]. split; [lia|done].
  - exists None. split; [done|]. intros i [=].
Qed.

(** On a list sorted by key, a key present inside the interval is found. *)
Lemma binary_search_while_finds (sorted_data : list T) (target : K)
    (low high : Z) :
  sorted sorted_data ->
  0 <= low -> high < len sorted_data ->
  (exists (p : nat) (x : T),
      low <= Z.of_nat p <= high /\ sorted_data !! p = Some x /\ key x = target) ->
  exists i, binary_search_while key sorted_data target low high = Returns (Some i).
Proof.
  intros Hs. remember (Z.to_nat (high - low + 1)) as n eqn:Hn.
  revert low high Hn. induction n as [n IH] using lt_wf_ind.
  intros low high -> Hlow Hhigh (p & x & Hp & Hx & Hkey).
  rewrite binary_search_while_equation_1.
  rewrite decide_True by lia. cbv zeta.
  pose proof (midpoint_bounds low high ltac:(lia)) as Hmid.
  set (mid := (low + high) / 2) in *.
  destruct (getitem_in_range sorted_data mid) as (m & Hm & ->); [lia|].
  cbn. destruct (py_eq (key m) target) eqn:Heq; [by eexists|].
  assert (key m <> target) as Hne
    by (intros Hmt; apply py_eq_spec in Hmt; congruence).
  apply sorted_non_descending in Hs.
  destruct (py_lt (key m) target) eqn:Hlt; rewrite py_lt_spec in Hlt.
  - apply (IH (Z.to_nat (high - (mid + 1) + 1))); [lia|done|lia|lia|].
    exists p, x. split; [|done].
    destruct (decide (Z.of_nat p <= mid)) as [Hpm|Hpm]; [|lia].
    exfalso. assert (key_le key x m) as Hxm
      by (apply (Hs p (Z.to_nat mid)); [lia|done..]).
    unfold key_le in Hxm. rewrite Hkey, Bool.negb_true_iff in *. congruence.
  - apply (IH (Z.to_nat (mid - 1 - low + 1))); [lia|done|lia|lia|].
    exists p, x. split; [|done].
    destruct (decide (mid <= Z.of_nat p)) as [Hpm|Hpm]; [|lia].
    exfalso. assert (key_le key m x) as Hmx
      by (apply (Hs (Z.to_nat mid) p); [lia|done..]).
    unfold key_le in Hmx. rewrite Hkey in Hmx.
    apply Bool.negb_false_iff in Hlt. apply Hne. by apply py_le_antisym.
Qed.

(** The scan of [linear_search], started at position [n]. *)
Lemma linear_search_for_spec (data : list T) (target : K) :
  forall n : nat,
    match linear_search_for key
            (imap (fun i x => (Z.of_nat (n + i), x)) data) target with
    | Returns (Some i) =>
        exists (p : nat) (x : T),
          i = Z.of_nat (n + p) /\ data !! p = Some x /\ key x = target /\
          forall (q : nat) (y : T), (q < p)%nat -> data !! q = Some y -> key y <> target
    | Returns None => forall x, x ∈ data -> key x <> target
    | Raises _ => False
    end.
Proof.
  induction data as [|a data IH]; intros n; simpl.
  - by intros x ?%elem_of_nil.
  - destruct (py_eq (key a) target) eqn:Heq.
    + exists 0%nat, a. split; [done|]. split; [done|].
      split; [by apply py_eq_spec|]. intros q y Hq. lia.
    + assert (key a <> target) as Hne
        by (intros Hat; apply py_eq_spec in Hat; congruence).
      specialize (IH (S n)).
      rewrite (imap_ext _ (fun i x => (Z.of_nat (S n + i), x))).
      2: { intros i x _. simpl. do 2 f_equal. lia. }
      destruct (linear_search_for _ _ _) as [[i|]|]; [| |done].
      * destruct IH as (p & x & -> & Hx & Hk & Hfirst).
        exists (S p), x. split; [f_equal; lia|]. split; [done|]. split; [done|].
        intros [|q] y Hq Hy; simpl in Hy; [congruence|].
        apply (Hfirst q); [lia|done].
      * intros x [->|Hx]%elem_of_cons; [done|by apply IH].
Qed.
End SearchFacts.

(** * Floats

    Facts about the rounding of [SpecFloat]: the sign of a result, and
    that a result is finite when the operands are far from the largest
    double. *)

Section FloatFacts.
Import Float.

Lemma digits2_pos_bounds (p : positive) :
  2 ^ (Zpos (digits2_pos p) - 1) <= Zpos p < 2 ^ Zpos (digits2_pos p).
Proof.
  induction p as [p IH|p IH|]; simpl digits2_pos; [| |done].
  - rewrite Pos2Z.inj_succ.
    replace (Z.succ (Zpos (digits2_pos p)) - 1)
      with (Z.succ (Zpos (digits2_pos p) - 1)) by lia.
    rewrite !Z.pow_succ_r by lia. lia.
  - rewrite Pos2Z.inj_succ.
    replace (Z.succ (Zpos (digits2_pos p)) - 1)
      with (Z.succ (Zpos (digits2_pos p) - 1)) by lia.
    rewrite !Z.pow_succ_r by lia. lia.
Qed.

Lemma Zdigits2_bounds (m : Z) :
  0 < m -> 1 <= Zdigits2 m /\ 2 ^ (Zdigits2 m - 1) <= m < 2 ^ Zdigits2 m.
Proof.
  destruct m as [|p|p]; [lia| |lia]. intros _. simpl.
  split; [lia|apply digits2_pos_bounds].
Qed.

Lemma Zdigits2_upper (m n : Z) : 0 <= n -> 0 <= m < 2 ^ n -> Zdigits2 m <= n.
Proof.
  intros Hn [Hm Hlt]. destruct (decide (m = 0)) as [->|Hne]; [done|].
  destruct (Zdigits2_bounds m) as (Hd & Hlo & _); [lia|].
  apply Z.lt_succ_r, Z.lt_pred_lt_succ.
  apply (Z.pow_lt_mono_r_iff 2); [lia..|].
  rewrite <- Z.sub_1_r. lia.
Qed.

Lemma Zdigits2_lower (m n : Z) : 0 < m -> 2 ^ (n - 1) <= m -> n <= Zdigits2 m.
Proof.
  intros Hm Hle. destruct (Zdigits2_bounds m Hm) as (Hd & _ & Hhi).
  destruct (decide (n <= 1)) as [|Hn]; [lia|].
  assert (n - 1 < Zdigits2 m); [|lia].
  apply (Z.pow_lt_mono_r_iff 2); lia.
Qed.

Lemma shr_m_of_loc (m : Z) (l : location) : shr_m (shr_record_of_loc m l) = m.
Proof. by destruct l as [|[]]. Qed.

Lemma shr_m_shr_1 (mrs : shr_record) :
  0 <= shr_m mrs -> shr_m (shr_1 mrs) = shr_m mrs / 2.
Proof.
  destruct mrs as [[|[p|p|]|p] r s]; simpl; intros Hm; try done; try lia.
  - by rewrite <- Z.div2_div.
  - by rewrite <- Z.div2_div.
Qed.

Lemma shr_m_iter_pos (p : positive) (mrs : shr_record) :
  0 <= shr_m mrs ->
  shr_m (SpecFloat.iter_pos shr_1 p mrs) = shr_m mrs / 2 ^ Zpos p.
Proof.
  assert (forall q : positive, 0 < 2 ^ Zpos q) as Hpow
    by (intros q; by apply Z.pow_pos_nonneg).
  revert mrs. induction p as [p IH|p IH|]; intros mrs Hm; simpl SpecFloat.iter_pos;
    try pose proof (Hpow p).
  - assert (0 <= shr_m (shr_1 mrs)) as H1
      by (rewrite shr_m_shr_1 by done; by apply Z.div_pos).
    assert (0 <= shr_m (SpecFloat.iter_pos shr_1 p (shr_1 mrs))) as H2
      by (rewrite IH by done; apply Z.div_pos; lia).
    rewrite !IH, shr_m_shr_1 by done.
    replace (Z.pos p~1) with (1 + Z.pos p + Z.pos p) by lia.
    rewrite !Z.pow_add_r by lia. rewrite !Z.div_div by (try lia; nia).
    by rewrite Z.pow_1_r, !Z.mul_assoc.
  - assert (0 <= shr_m (SpecFloat.iter_pos shr_1 p mrs)) as H2
      by (rewrite IH by done; apply Z.div_pos; lia).
    rewrite !IH by done.
    replace (Z.pos p~0) with (Z.pos p + Z.pos p) by lia.
    rewrite !Z.pow_add_r by lia. by rewrite !Z.div_div by (try lia; nia).
  - by rewrite shr_m_shr_1, Z.pow_1_r.
Qed.

Lemma shr_spec (mrs : shr_record) (e k : Z) :
  0 <= shr_m mrs ->
  shr_m (shr mrs e k).1 = shr_m mrs / 2 ^ Z.max 0 k /\
  (shr mrs e k).2 = e + Z.max 0 k.
Proof.
  intros Hm. destruct k as [|p|p]; simpl.
  - by rewrite Z.div_1_r, Z.add_0_r.
  - by rewrite shr_m_iter_pos.
  - by rewrite Z.div_1_r, Z.add_0_r.
Qed.

Lemma round_nearest_even_bounds (m : Z) (l : location) :
  m <= round_nearest_even m l <= m + 1.
Proof.
  unfold round_nearest_even.
  destruct l as [|[]]; try destruct (Z.even m); lia.
Qed.

(** A rounded non-negative mantissa: the sign is the one given, and
    the result is a number. *)
Lemma binary_round_aux_sign (s : bool) (m e : Z) (l : location) :
  0 <= m -> sign_class s (binary_round_aux prec emax s m e l).
Proof.
  intros Hm. unfold binary_round_aux, shr_fexp.
  destruct (shr_spec (shr_record_of_loc m l) e
              (fexp prec emax (Zdigits2 m + e) - e)) as [Hm1 _];
    [by rewrite shr_m_of_loc|].
  destruct (shr _ e _) as [mrs1 e1]. simpl in Hm1.
  rewrite shr_m_of_loc in Hm1.
  set (m2 := round_nearest_even _ _).
  assert (0 <= m2) as Hm2.
  { pose proof (round_nearest_even_bounds (shr_m mrs1) (loc_of_shr_record mrs1)).
    assert (0 <= shr_m mrs1) by (rewrite Hm1; apply Z.div_pos; lia).
    unfold m2. lia. }
  destruct (shr_spec (shr_record_of_loc m2 loc_Exact) e1
              (fexp prec emax (Zdigits2 m2 + e1) - e1)) as [Hm3 _]; [done|].
  destruct (shr _ e1 _) as [mrs3 e3]. simpl in Hm3.
  assert (0 <= shr_m mrs3) as Hm3' by (rewrite Hm3; apply Z.div_pos; lia).
  destruct (shr_m mrs3) as [|p|p]; [done| |lia].
  by destruct (_ <=? _).
Qed.

(** No underflow to zero and no overflow: a positive mantissa whose
    value lies in the range of the format rounds to a finite number. *)
Lemma binary_round_aux_finite (s : bool) (m e : Z) (l : location) :
  0 < m ->
  emin prec emax < Zdigits2 m + e ->
  e <= emax - prec ->
  Zdigits2 m + e < emax ->
  exists m' e',
    binary_round_aux prec emax s m e l = S754_finite s m' e' /\
    Zdigits2 m + e <= Zpos (digits2_pos m') + e'.
Proof.
  intros Hm Hlo He Hhi. unfold binary_round_aux, shr_fexp.
  destruct (Zdigits2_bounds m Hm) as (HD & HDl & HDu).
  set (D := Zdigits2 m) in *.
  set (k1 := fexp prec emax (D + e) - e).
  destruct (shr_spec (shr_record_of_loc m l) e k1) as [Hm1 He1];
    [rewrite shr_m_of_loc; lia|].
  destruct (shr _ e k1) as [mrs1 e1]. simpl in Hm1, He1.
  rewrite shr_m_of_loc in Hm1.
  set (j1 := Z.max 0 k1) in *.
  assert (0 <= j1 <= D - 1) as Hj1
    by (unfold j1, k1, fexp, emin, prec, emax in *; lia).
  assert (2 ^ (D - 1 - j1) <= shr_m mrs1 < 2 ^ (D - j1)) as Hb1.
  { assert (0 < 2 ^ j1) by (apply Z.pow_pos_nonneg; lia).
    rewrite Hm1. split.
    - apply Z.div_le_lower_bound; [done|].
      rewrite <- Z.pow_add_r by lia. by replace (j1 + (D - 1 - j1)) with (D - 1) by lia.
    - apply Z.div_lt_upper_bound; [done|].
      rewrite <- Z.pow_add_r by lia. by replace (j1 + (D - j1)) with D by lia. }
  pose proof (round_nearest_even_bounds (shr_m mrs1) (loc_of_shr_record mrs1)) as Hr.
  set (m2 := round_nearest_even _ _) in *.
  assert (0 < 2 ^ (D - 1 - j1)) as Hp by (apply Z.pow_pos_nonneg; lia).
  assert (0 < m2) as Hm2 by lia.
  destruct (Zdigits2_bounds m2 Hm2) as (HD2 & HD2l & HD2u).
  assert (Zdigits2 m2 <= D - j1 + 1) as HD2'.
  { apply Zdigits2_upper; [lia|]. split; [lia|].
    replace (D - j1 + 1) with (Z.succ (D - j1)) by lia.
    rewrite Z.pow_succ_r by lia. lia. }
  set (D2 := Zdigits2 m2) in *.
  set (k2 := fexp prec emax (D2 + e1) - e1).
  destruct (shr_spec (shr_record_of_loc m2 loc_Exact) e1 k2) as [Hm3 He3];
    [simpl; lia|].
  destruct (shr _ e1 k2) as [mrs3 e3]. simpl in Hm3, He3.
  set (j2 := Z.max 0 k2) in *.
  assert (0 <= j2 <= D2 - 1) as Hj2
    by (unfold j2, k2, j1, k1, fexp, emin, prec, emax in *; lia).
  assert (2 ^ (D2 - j2 - 1) <= shr_m mrs3) as Hb3.
  { assert (0 < 2 ^ j2) by (apply Z.pow_pos_nonneg; lia).
    rewrite Hm3. apply Z.div_le_lower_bound; [done|].
    rewrite <- Z.pow_add_r by lia.
    by replace (j2 + (D2 - j2 - 1)) with (D2 - 1) by lia. }
  assert (0 < 2 ^ (D2 - j2 - 1)) as Hp3 by (apply Z.pow_pos_nonneg; lia).
  assert (D - j1 <= D2) as HD2''
    by (apply Zdigits2_lower; [done|];
        replace (D - j1 - 1) with (D - 1 - j1) by lia; lia).
  assert (e3 <= emax - prec) as He3'
    by (unfold j2, k2, j1, k1, fexp, emin, prec, emax in *; lia).
  destruct (shr_m mrs3) as [|p|p] eqn:Hp3'; [lia| |lia].
  apply Z.leb_le in He3'. rewrite He3'. eexists _, _. split; [done|].
  assert (D2 - j2 <= Zpos (digits2_pos p)) as Hl3
    by (apply (Zdigits2_lower (Zpos p)); [done|lia]).
  lia.
Qed.

Lemma iter_xO (m d : positive) : Zpos (Pos.iter xO m d) = Zpos m * 2 ^ Zpos d.
Proof.
  induction d as [|d IH] using Pos.peano_ind; [simpl; lia|].
  rewrite Pos.iter_succ, Pos2Z.inj_xO, IH, Pos2Z.inj_succ, Z.pow_succ_r by lia.
  lia.
Qed.

Lemma shl_align_spec (mx : positive) (ex ex' : Z) :
  (shl_align mx ex ex').2 = Z.min ex ex' /\
  Zpos (shl_align mx ex ex').1 = Zpos mx * 2 ^ (ex - Z.min ex ex').
Proof.
  unfold shl_align. destruct (ex' - ex) as [|d|d] eqn:Hd; simpl.
  - split; [lia|]. replace (ex - Z.min ex ex') with 0 by lia. lia.
  - split; [lia|]. replace (ex - Z.min ex ex') with 0 by lia. lia.
  - split; [lia|]. rewrite iter_xO. do 2 f_equal. lia.
Qed.

Lemma binary_round_sign (s : bool) (m : positive) (e : Z) :
  sign_class s (binary_round prec emax s m e).
Proof.
  unfold binary_round. destruct (shl_align _ _ _) as [mz ez].
  by apply binary_round_aux_sign.
Qed.

Lemma binary_round_finite (s : bool) (m : positive) (e : Z) :
  emin prec emax < Zpos (digits2_pos m) + e ->
  e <= emax - prec ->
  Zpos (digits2_pos m) + e < emax ->
  exists m' e',
    binary_round prec emax s m e = S754_finite s m' e' /\
    Zpos (digits2_pos m) + e <= Zpos (digits2_pos m') + e'.
Proof.
  intros Hlo He Hhi. unfold binary_round.
  pose proof (digits2_pos_bounds m) as [HDl HDu].
  set (D := Zpos (digits2_pos m)) in *.
  destruct (shl_align_spec m e (fexp prec emax (D + e))) as [Hez Hmz].
  destruct (shl_align _ _ _) as [mz ez]. simpl in Hez, Hmz.
  rewrite <- Hez in Hmz.
  assert (0 <= e - ez) as Hsh by lia.
  assert (0 < 2 ^ (e - ez)) as Hp by (by apply Z.pow_pos_nonneg).
  assert (D + (e - ez) <= Zdigits2 (Zpos mz)) as Hl.
  { apply Zdigits2_lower; [done|]. rewrite Hmz.
    replace (D + (e - ez) - 1) with ((D - 1) + (e - ez)) by lia.
    rewrite Z.pow_add_r by lia. by apply Z.mul_le_mono_nonneg_r; [lia|]. }
  assert (Zdigits2 (Zpos mz) <= D + (e - ez)) as Hu.
  { apply Zdigits2_upper; [lia|]. split; [done|]. rewrite Hmz.
    rewrite Z.pow_add_r by lia. by apply Z.mul_lt_mono_pos_r. }
  destruct (binary_round_aux_finite s (Zpos mz) ez loc_Exact)
    as (m' & e' & Heq & Hle); [done|lia|lia|lia|].
  exists m', e'. split; [done|]. fold D. lia.
Qed.

(** [float(n)] of a non-zero integer of at most 63 bits is a finite
    number of the sign of [n]. *)
Lemma of_int_finite (n : Z) :
  n <> 0 -> - 2 ^ 63 <= n < 2 ^ 63 ->
  exists m e,
    of_int n = S754_finite (n <? 0) m e /\ 1 <= Zpos (digits2_pos m) + e.
Proof.
  intros Hne Hn. unfold of_int, binary_normalize.
  assert (forall p : positive, Zpos p <= 2 ^ 63 ->
            Zpos (digits2_pos p) <= 64) as Hd.
  { intros p Hp. apply (Zdigits2_upper (Zpos p)); [done|].
    change (2 ^ 64) with (2 * 2 ^ 63). lia. }
  destruct n as [|p|p]; [done|..].
  - specialize (Hd p ltac:(lia)).
    destruct (binary_round_finite false p 0) as (m & e & Heq & Hle);
      [unfold emin, prec, emax; lia..|].
    exists m, e. split; [done|lia].
  - specialize (Hd p ltac:(lia)).
    destruct (binary_round_finite true p 0) as (m & e & Heq & Hle);
      [unfold emin, prec, emax; lia..|].
    exists m, e. split; [done|lia].
Qed.

Lemma valid_finite (s : bool) (m : positive) (e : Z) :
  valid (S754_finite s m e) = true ->
  emin prec emax <= e /\ Zpos (digits2_pos m) <= prec /\
  (emin prec emax < e -> Zpos (digits2_pos m) = prec).
Proof.
  unfold valid, valid_binary, bounded, canonical_mantissa, fexp.
  intros [Hc _]%andb_prop. apply Z.eqb_eq in Hc. lia.
Qed.

(** The comparison of two valid numbers is the comparison of their
    mantissas at the smaller of the two exponents. *)
Lemma leb_aligned (sx sy : bool) (mx my : positive) (ex ey : Z) :
  valid (S754_finite sx mx ex) = true ->
  valid (S754_finite sy my ey) = true ->
  leb (S754_finite sy my ey) (S754_finite sx mx ex) = true ->
  cond_Zopp sy (Zpos my * 2 ^ (ey - Z.min ex ey))
    <= cond_Zopp sx (Zpos mx * 2 ^ (ex - Z.min ex ey)).
Proof.
  intros (Hex & Hdx & Hnx)%valid_finite (Hey & Hdy & Hny)%valid_finite Hle.
  pose proof (digits2_pos_bounds mx) as [Hxl Hxu].
  pose proof (digits2_pos_bounds my) as [Hyl Hyu].
  assert (0 < 2 ^ (ex - Z.min ex ey)) by (apply Z.pow_pos_nonneg; lia).
  assert (0 < 2 ^ (ey - Z.min ex ey)) by (apply Z.pow_pos_nonneg; lia).
  assert (forall (a b : positive) (ea eb : Z),
            Zpos (digits2_pos a) <= prec -> Zpos (digits2_pos b) = prec ->
            ea < eb ->
            Zpos a <= Zpos b * 2 ^ (eb - ea)) as Hbig.
  { intros a b ea eb Ha Hb Hlt.
    pose proof (digits2_pos_bounds a) as [_ Hau].
    pose proof (digits2_pos_bounds b) as [Hbl _]. rewrite Hb in Hbl.
    assert (2 ^ Zpos (digits2_pos a) <= 2 ^ prec)
      by (apply Z.pow_le_mono_r; lia).
    assert (2 ^ 1 <= 2 ^ (eb - ea)) by (apply Z.pow_le_mono_r; lia).
    unfold prec in *. change (2 ^ 53) with (2 ^ (53 - 1) * 2 ^ 1) in *. nia. }
  unfold leb, SFleb, SFcompare in Hle.
  destruct sx, sy; simpl; try done.
  - (* both negative *)
    destruct (Z.compare_spec ey ex) as [->|Hlt|Hgt]; try done.
    + rewrite Z.min_id, Z.sub_diag, Z.pow_0_r.
      rewrite Pos.compare_cont_spec in Hle. simpl in Hle.
      destruct (Pos.compare_spec my mx); simpl in Hle; try done; lia.
    + replace (Z.min ex ey) with ex by lia.
      rewrite Z.sub_diag, Z.pow_0_r.
      specialize (Hbig mx my ex ey Hdx (Hny ltac:(lia)) Hgt). lia.
  - lia.
  - (* both positive *)
    destruct (Z.compare_spec ey ex) as [->|Hlt|Hgt]; try done.
    + rewrite Z.min_id, Z.sub_diag, Z.pow_0_r.
      rewrite Pos.compare_cont_spec in Hle. simpl in Hle.
      destruct (Pos.compare_spec my mx); simpl in Hle; try done; lia.
    + replace (Z.min ex ey) with ey by lia.
      rewrite Z.sub_diag, Z.pow_0_r.
      specialize (Hbig my mx ey ex Hdy (Hnx ltac:(lia)) Hlt). lia.
Qed.

(** [x - y] for finite [y <= x]: zero or positive, never [nan]. *)
Lemma sub_sign (x y : float) :
  is_finite x = true -> is_finite y = true ->
  valid x = true -> valid y = true ->
  leb y x = true ->
  sign_class false (sub x y).
Proof.
  intros Hfx Hfy Hvx Hvy Hle.
  destruct x as [sx|sx| |sx mx ex], y as [sy|sy| |sy my ey]; try done.
  - by destruct sx, sy.
  - simpl. by destruct sy.
  - simpl. by destruct sx.
  - pose proof (leb_aligned sx sy mx my ex ey Hvx Hvy Hle) as Hal.
    unfold sub, SFsub.
    destruct (shl_align_spec mx ex (Z.min ex ey)) as [_ Hx].
    destruct (shl_align_spec my ey (Z.min ex ey)) as [_ Hy].
    rewrite Hx, Hy.
    replace (Z.min ex (Z.min ex ey)) with (Z.min ex ey) by lia.
    replace (Z.min ey (Z.min ex ey)) with (Z.min ex ey) by lia.
    unfold binary_normalize.
    destruct (cond_Zopp sx _ - cond_Zopp sy _) as [|p|p] eqn:Hd;
      [done|apply binary_round_sign|lia].
Qed.

Lemma SFdiv_core_binary_nonneg (m1 e1 m2 e2 : Z) :
  0 <= m1 -> 0 < m2 ->
  0 <= (SFdiv_core_binary prec emax m1 e1 m2 e2).1.1.
Proof.
  intros H1 H2. unfold SFdiv_core_binary.
  set (m' := match _ with Z0 => m1 | Zpos _ => _ | Zneg _ => 0 end).
  assert (0 <= m') as Hm'.
  { unfold m'. destruct (_ - _ - _); [done| |done]. by apply Z.shiftl_nonneg. }
  destruct (Z.div_eucl m' m2) as [q r] eqn:E. simpl.
  assert (q = m' / m2) as -> by (unfold Z.div; by rewrite E).
  apply Z.div_pos; lia.
Qed.

Lemma div_sign (s sy : bool) (x : float) (my : positive) (ey : Z) :
  sign_class s x ->
  sign_class (xorb s sy) (div x (S754_finite sy my ey)).
Proof.
  destruct x as [sx|sx| |sx mx ex]; simpl; try done.
  - by intros ->.
  - intros ->.
    pose proof (SFdiv_core_binary_nonneg (Zpos mx) ex (Zpos my) ey) as Hq.
    destruct (SFdiv_core_binary _ _ _ _ _ _) as [[mz ez] lz].
    apply binary_round_aux_sign, Hq; lia.
Qed.

Lemma mul_sign (s sy : bool) (x : float) (my : positive) (ey : Z) :
  sign_class s x ->
  sign_class (xorb s sy) (mul x (S754_finite sy my ey)).
Proof.
  destruct x as [sx|sx| |sx mx ex]; simpl; try done.
  - by intros ->.
  - intros ->. by apply binary_round_aux_sign.
Qed.

Lemma div_half_even_nonneg (a b : Z) : 0 <= a -> 0 < b -> 0 <= div_half_even a b.
Proof.
  intros Ha Hb. unfold div_half_even.
  assert (0 <= a / b) by (apply Z.div_pos; lia).
  destruct (_ ?= _); [destruct (Z.even _)|..]; lia.
Qed.

Lemma hundredths_nonneg (m : positive) (e : Z) : 0 <= hundredths m e.
Proof.
  destruct e as [|p|p]; simpl hundredths; [lia| |].
  - assert (0 < 2 ^ Zpos p) by (by apply Z.pow_pos_nonneg). lia.
  - apply div_half_even_nonneg; [lia|]. by apply Z.pow_pos_nonneg.
Qed.

Lemma of_hundredths_sign (s : bool) (n : Z) :
  0 <= n -> sign_class s (of_hundredths s n).
Proof.
  intros Hn. unfold of_hundredths. destruct (decide (n = 0)); [done|].
  unfold of_ratio.
  pose proof (SFdiv_core_binary_nonneg n 0 100 0) as Hq.
  destruct (SFdiv_core_binary _ _ _ _ _ _) as [[mz ez] lz].
  apply binary_round_aux_sign, Hq; lia.
Qed.

Lemma round2_sign (s : bool) (x : float) :
  sign_class s x -> sign_class s (round2 x).
Proof.
  destruct x as [sx|sx| |sx mx ex]; simpl; try done.
  intros ->. apply of_hundredths_sign, hundredths_nonneg.
Qed.

Lemma leb_zero_sign (v : float) : leb zero v = true <-> sign_class false v.
Proof. destruct v as [[]|[]| |[] m e]; simpl; by split. Qed.


(** *** Magnitudes: no overflow *)

Lemma within_mono (B B' : Z) (v : float) : B <= B' -> within B v -> within B' v.
Proof. destruct v as [| | |s m e]; simpl; try done. lia. Qed.

Lemma within_finite (B : Z) (v : float) : within B v -> is_finite v = true.
Proof. by destruct v. Qed.

Lemma Zdigits2_nonneg (m : Z) :
  0 <= m -> 0 <= Zdigits2 m /\ m < 2 ^ Zdigits2 m.
Proof.
  intros Hm. destruct (decide (m = 0)) as [->|Hne]; [done|].
  destruct (Zdigits2_bounds m); lia.
Qed.

Lemma div_pow2_lt (m j D : Z) :
  0 <= m < 2 ^ D -> 0 <= j -> 0 <= D ->
  0 <= m / 2 ^ j < 2 ^ Z.max (D - j) 0.
Proof.
  intros [Hm Hlt] Hj HD.
  assert (0 < 2 ^ j) by (by apply Z.pow_pos_nonneg).
  split; [apply Z.div_pos; lia|].
  apply Z.div_lt_upper_bound; [done|].
  rewrite <- Z.pow_add_r by lia.
  eapply Z.lt_le_trans; [exact Hlt|]. apply Z.pow_le_mono_r; lia.
Qed.

Lemma binary_round_aux_within (s : bool) (m e : Z) (l : location) (B : Z) :
  0 <= m -> e <= emax - prec -> Zdigits2 m + e <= B ->
  emin prec emax <= B -> B < emax ->
  within (B + 1) (binary_round_aux prec emax s m e l).
Proof.
  intros Hm He HB Hlo Hhi. unfold binary_round_aux, shr_fexp.
  destruct (Zdigits2_nonneg m Hm) as [HD HDu].
  set (D := Zdigits2 m) in *.
  set (k1 := fexp prec emax (D + e) - e).
  destruct (shr_spec (shr_record_of_loc m l) e k1) as [Hm1 He1];
    [by rewrite shr_m_of_loc|].
  destruct (shr _ e k1) as [mrs1 e1]. simpl in Hm1, He1.
  rewrite shr_m_of_loc in Hm1.
  set (j1 := Z.max 0 k1) in *.
  pose proof (div_pow2_lt m j1 D ltac:(lia) ltac:(lia) HD) as Hb1.
  rewrite <- Hm1 in Hb1.
  pose proof (round_nearest_even_bounds (shr_m mrs1) (loc_of_shr_record mrs1)) as Hr.
  set (m2 := round_nearest_even _ _) in *.
  assert (Zdigits2 m2 <= Z.max (D - j1) 0 + 1) as HD2.
  { apply Zdigits2_upper; [lia|]. split; [lia|].
    replace (Z.max (D - j1) 0 + 1) with (Z.succ (Z.max (D - j1) 0)) by lia.
    rewrite Z.pow_succ_r by lia. lia. }
  destruct (Zdigits2_nonneg m2 ltac:(lia)) as [HD2n HD2u].
  set (D2 := Zdigits2 m2) in *.
  set (k2 := fexp prec emax (D2 + e1) - e1).
  destruct (shr_spec (shr_record_of_loc m2 loc_Exact) e1 k2) as [Hm3 He3];
    [simpl; lia|].
  destruct (shr _ e1 k2) as [mrs3 e3]. simpl in Hm3, He3.
  set (j2 := Z.max 0 k2) in *.
  pose proof (div_pow2_lt m2 j2 D2 ltac:(lia) ltac:(lia) HD2n) as Hb3.
  rewrite <- Hm3 in Hb3.
  destruct (shr_m mrs3) as [|p|p] eqn:Hp; [done| |lia].
  assert (Zpos (digits2_pos p) <= Z.max (D2 - j2) 0) as HD3
    by (apply (Zdigits2_upper (Zpos p)); lia).
  assert (e3 <= emax - prec) as He3'
    by (unfold j2, k2, j1, k1, fexp, emin, prec, emax in *; lia).
  apply Z.leb_le in He3' as He3''. rewrite He3''. simpl. split; [|done].
  unfold j2, k2, j1, k1, fexp, emin, prec, emax in *. lia.
Qed.

Lemma binary_round_within (s : bool) (m : positive) (e : Z) (B : Z) :
  e <= emax - prec -> Zpos (digits2_pos m) + e <= B ->
  emin prec emax <= B -> B < emax ->
  within (B + 1) (binary_round prec emax s m e).
Proof.
  intros He HB Hlo Hhi. unfold binary_round.
  pose proof (digits2_pos_bounds m) as [HDl HDu].
  set (D := Zpos (digits2_pos m)) in *.
  destruct (shl_align_spec m e (fexp prec emax (D + e))) as [Hez Hmz].
  destruct (shl_align _ _ _) as [mz ez]. simpl in Hez, Hmz.
  rewrite <- Hez in Hmz.
  assert (0 < 2 ^ (e - ez)) as Hp by (apply Z.pow_pos_nonneg; lia).
  assert (Zdigits2 (Zpos mz) <= D + (e - ez)) as Hu.
  { apply Zdigits2_upper; [lia|]. split; [done|]. rewrite Hmz.
    rewrite Z.pow_add_r by lia. by apply Z.mul_lt_mono_pos_r. }
  apply binary_round_aux_within; lia.
Qed.

Lemma leb_zero_finite (s : bool) (m : positive) (e : Z) :
  leb zero (S754_finite s m e) = true -> s = false.
Proof. by destruct s. Qed.

(** The time between two readings of a clock that starts at zero or
    later and never runs backwards is below the later reading. *)
Lemma sub_within (x y : float) (B : Z) :
  is_finite x = true -> is_finite y = true ->
  valid x = true -> valid y = true ->
  leb zero y = true -> leb y x = true ->
  within B x -> emin prec emax <= B -> B < emax ->
  within (B + 1) (sub x y).
Proof.
  intros Hfx Hfy Hvx Hvy H0 Hle Hx Hlo Hhi.
  destruct x as [sx|sx| |sx mx ex], y as [sy|sy| |sy my ey]; try done.
  - by destruct sx, sy.
  - apply leb_zero_finite in H0 as ->. by destruct sx.
  - simpl in *. lia.
  - apply leb_zero_finite in H0 as ->.
    destruct sx; [done|].
    pose proof (leb_aligned false false mx my ex ey Hvx Hvy Hle) as Hal.
    simpl in Hal, Hx. destruct Hx as [Hx Hex].
    unfold sub, SFsub.
    destruct (shl_align_spec mx ex (Z.min ex ey)) as [_ Hmx].
    destruct (shl_align_spec my ey (Z.min ex ey)) as [_ Hmy].
    rewrite Hmx, Hmy.
    replace (Z.min ex (Z.min ex ey)) with (Z.min ex ey) by lia.
    replace (Z.min ey (Z.min ex ey)) with (Z.min ex ey) by lia.
    simpl cond_Zopp. unfold binary_normalize.
    pose proof (digits2_pos_bounds mx) as [_ Hu].
    assert (0 < 2 ^ (ex - Z.min ex ey)) by (apply Z.pow_pos_nonneg; lia).
    assert (0 < Zpos my * 2 ^ (ey - Z.min ex ey))
      by (apply Z.mul_pos_pos; [done|apply Z.pow_pos_nonneg; lia]).
    destruct (_ * _ - _ * _) as [|p|p] eqn:Hd; [done| |lia].
    apply binary_round_within; [lia| |done..].
    assert (Zpos (digits2_pos p) <= Zpos (digits2_pos mx) + (ex - Z.min ex ey));
      [|lia].
    apply (Zdigits2_upper (Zpos p)); [lia|]. split; [done|].
    rewrite Z.pow_add_r by lia.
    assert (Zpos mx * 2 ^ (ex - Z.min ex ey)
            < 2 ^ Zpos (digits2_pos mx) * 2 ^ (ex - Z.min ex ey))
      by (by apply Z.mul_lt_mono_pos_r).
    lia.
Qed.

Lemma SFdiv_core_binary_within (m1 e1 m2 e2 B : Z) :
  0 <= m1 -> 0 < m2 ->
  Zdigits2 m1 + e1 - (Zdigits2 m2 + e2) + 1 <= B ->
  emin prec emax <= B -> B <= emax ->
  0 <= (SFdiv_core_binary prec emax m1 e1 m2 e2).1.1 /\
  Zdigits2 (SFdiv_core_binary prec emax m1 e1 m2 e2).1.1
    + (SFdiv_core_binary prec emax m1 e1 m2 e2).1.2 <= B /\
  (SFdiv_core_binary prec emax m1 e1 m2 e2).1.2 <= emax - prec.
Proof.
  intros H1 H2 HB Hlo Hhi. unfold SFdiv_core_binary.
  destruct (Zdigits2_nonneg m1 H1) as [HD1 HD1u].
  destruct (Zdigits2_bounds m2 H2) as (HD2 & HD2l & _).
  set (D1 := Zdigits2 m1) in *. set (D2 := Zdigits2 m2) in *.
  set (e' := Z.min (fexp prec emax (D1 + e1 - (D2 + e2))) (e1 - e2)).
  set (sh := e1 - e2 - e').
  assert (0 <= sh) as Hsh by (unfold sh, e'; lia).
  set (m' := match sh with Z0 => m1 | Zpos _ => _ | Zneg _ => 0 end).
  assert (m' = m1 * 2 ^ sh) as Hm'.
  { unfold m'. destruct sh as [|p|p] eqn:E; [lia| |lia].
    by rewrite Z.shiftl_mul_pow2. }
  clearbody m'.
  assert (0 < 2 ^ sh) by (by apply Z.pow_pos_nonneg).
  destruct (Z.div_eucl m' m2) as [q r] eqn:E. simpl.
  assert (q = m' / m2) as -> by (unfold Z.div; by rewrite E).
  assert (0 <= m' / m2) as Hq by (apply Z.div_pos; nia).
  split; [done|]. split; [|unfold e', fexp, emin, prec, emax in *; lia].
  set (c := Z.max (D1 + sh - D2 + 1) 0).
  assert (Zdigits2 (m' / m2) <= c) as Hd.
  { apply Zdigits2_upper; [lia|]. split; [done|].
    apply Z.div_lt_upper_bound; [done|].
    assert (m' < 2 ^ (D1 + sh))
      by (rewrite Hm', Z.pow_add_r by lia; by apply Z.mul_lt_mono_pos_r).
    assert (2 ^ (D1 + sh) <= 2 ^ (D2 - 1 + c))
      by (apply Z.pow_le_mono_r; lia).
    assert (0 < 2 ^ c) by (apply Z.pow_pos_nonneg; lia).
    assert (2 ^ (D2 - 1 + c) = 2 ^ (D2 - 1) * 2 ^ c) as Hs
      by (apply Z.pow_add_r; lia).
    assert (2 ^ (D2 - 1) * 2 ^ c <= m2 * 2 ^ c)
      by (apply Z.mul_le_mono_nonneg_r; lia).
    lia. }
  unfold c, sh, e', fexp, emin, prec, emax in *. lia.
Qed.

Lemma div_within (x : float) (sy : bool) (my : positive) (ey : Z) (B : Z) :
  within B x -> 1 <= Zpos (digits2_pos my) + ey ->
  emin prec emax <= B -> B < emax ->
  within (B + 1) (div x (S754_finite sy my ey)).
Proof.
  intros Hx Hy Hlo Hhi. destruct x as [sx|sx| |sx mx ex]; try done.
  simpl in Hx. unfold div, SFdiv.
  destruct (SFdiv_core_binary_within (Zpos mx) ex (Zpos my) ey B)
    as (Hq & Hd & He); [done|done|simpl; lia|done|lia|].
  destruct (SFdiv_core_binary _ _ _ _ _ _) as [[mz ez] lz]. simpl in *.
  by apply binary_round_aux_within.
Qed.

Lemma mul_within (x : float) (sy : bool) (my : positive) (ey : Z) (B C : Z) :
  within B x -> Zpos (digits2_pos my) + ey <= C -> ey <= 0 ->
  emin prec emax <= B + C -> B + C < emax ->
  within (B + C + 1) (mul x (S754_finite sy my ey)).
Proof.
  intros Hx Hy Hey Hlo Hhi. destruct x as [sx|sx| |sx mx ex]; try done.
  simpl in Hx. unfold mul, SFmul.
  pose proof (digits2_pos_bounds mx) as [_ Hxu].
  pose proof (digits2_pos_bounds my) as [_ Hyu].
  apply binary_round_aux_within; [done|lia| |done..].
  assert (Zdigits2 (Zpos (mx * my))
          <= Zpos (digits2_pos mx) + Zpos (digits2_pos my)); [|lia].
  apply Zdigits2_upper; [lia|]. split; [done|].
  rewrite Pos2Z.inj_mul, Z.pow_add_r by lia.
  apply Z.mul_lt_mono_nonneg; lia.
Qed.

Lemma div_half_even_le (a b : Z) : div_half_even a b <= a / b + 1.
Proof.
  unfold div_half_even. destruct (_ ?= _); [destruct (Z.even _)|..]; lia.
Qed.

Lemma hundredths_digits (m : positive) (e : Z) :
  Zdigits2 (hundredths m e) <= Z.max (Zpos (digits2_pos m) + e + 8) 1.
Proof.
  pose proof (digits2_pos_bounds m) as [_ Hu].
  set (D := Zpos (digits2_pos m)) in *.
  assert (100 * Zpos m < 2 ^ (D + 7)) as H100.
  { rewrite Z.pow_add_r by lia. change (2 ^ 7) with 128. lia. }
  pose proof (hundredths_nonneg m e) as Hn.
  apply Zdigits2_upper; [lia|]. split; [done|].
  destruct e as [|p|p]; simpl hundredths.
  - rewrite Z.mul_1_r.
    eapply Z.lt_le_trans; [exact H100|]. apply Z.pow_le_mono_r; lia.
  - assert (0 < 2 ^ Zpos p) by (by apply Z.pow_pos_nonneg).
    assert (100 * Zpos m * 2 ^ Zpos p < 2 ^ (D + 7) * 2 ^ Zpos p) as Hlt
      by (by apply Z.mul_lt_mono_pos_r).
    eapply Z.lt_le_trans; [exact Hlt|].
    rewrite <- Z.pow_add_r by lia. apply Z.pow_le_mono_r; lia.
  - pose proof (div_half_even_le (100 * Zpos m) (2 ^ Zpos p)) as Hle.
    pose proof (div_pow2_lt (100 * Zpos m) (Zpos p) (D + 7)
                  ltac:(lia) ltac:(lia) ltac:(lia)) as [_ Hlt].
    eapply Z.le_lt_trans; [exact Hle|].
    assert (2 ^ Z.max (D + 7 - Zpos p) 0 + 2 ^ Z.max (D + 7 - Zpos p) 0
            <= 2 ^ Z.max (D + Zneg p + 8) 1); [|lia].
    replace (Z.max (D + Zneg p + 8) 1)
      with (Z.succ (Z.max (D + 7 - Zpos p) 0)) by lia.
    rewrite Z.pow_succ_r by lia. lia.
Qed.

(** [round(x, 2)] of a number that is not close to the largest double
    is a finite number. *)
Lemma round2_finite (x : float) (B : Z) :
  within B x -> B <= 1000 -> is_finite (round2 x) = true.
Proof.
  intros Hx HB. destruct x as [sx|sx| |sx mx ex]; try done.
  simpl in Hx. simpl round2. unfold of_hundredths.
  destruct (decide (_ = 0)) as [|Hne]; [done|]. unfold of_ratio.
  pose proof (hundredths_nonneg mx ex) as Hn.
  pose proof (hundredths_digits mx ex) as Hd.
  set (n := hundredths mx ex) in *.
  destruct (SFdiv_core_binary_within n 0 100 0 1010)
    as (Hq & Hdq & He); [done|done|simpl; lia|unfold emin, prec, emax; lia..|].
  destruct (SFdiv_core_binary _ _ _ _ _ _) as [[mz ez] lz]. simpl in *.
  apply (within_finite (1010 + 1)).
  apply binary_round_aux_within; unfold emin, prec, emax in *; lia.
Qed.

Lemma round2_two_decimals (x : float) :
  is_finite x = true ->
  exists (s : bool) (n : Z), 0 <= n /\ round2 x = of_hundredths s n.
Proof.
  destruct x as [sx|sx| |sx mx ex]; try done; intros _.
  - by exists sx, 0.
  - exists sx, (hundredths mx ex). split; [apply hundredths_nonneg|done].
Qed.

(** A valid reading between zero and [2 ^ 62]. *)
Lemma within_le_pow62 (x : float) :
  valid x = true -> is_finite x = true ->
  leb zero x = true -> leb x (of_int (2 ^ 62)) = true ->
  within 63 x.
Proof.
  intros Hv Hf H0 Hle. destruct x as [sx|sx| |sx mx ex]; try done.
  apply leb_zero_finite in H0 as ->.
  apply valid_finite in Hv as Hv'. destruct Hv' as (Hex & Hd & _).
  assert (ex <= emax - prec) as Hex'.
  { unfold valid, valid_binary, bounded in Hv.
    apply andb_prop in Hv as [_ Hv]. by apply Z.leb_le in Hv. }
  split; [|done].
  change (of_int (2 ^ 62)) with (S754_finite false 4503599627370496 10) in Hle.
  unfold leb, SFleb, SFcompare in Hle. unfold prec in *.
  destruct (Z.compare_spec ex 10); [lia|lia|done].
Qed.

End FloatFacts.

(** * The store model *)

Section StoreFacts.
Context {T K : Type} `{PyOrd K}.
Variable key : T -> K.
Variable timer : nat -> Float.float.
Import Store.

Implicit Types (s : state (T:=T)) (r : ref) (l : list T).

Lemma unchanged_subseteq s s' : unchanged s s' <-> objects s ⊆ objects s'.
Proof. unfold unchanged. by rewrite map_subseteq_spec. Qed.

Lemma unchanged_refl s : unchanged s s.
Proof. by intros r l. Qed.

Lemma unchanged_trans s1 s2 s3 :
  unchanged s1 s2 -> unchanged s2 s3 -> unchanged s1 s3.
Proof. intros H12 H23 r l Hr. by apply H23, H12. Qed.

Lemma unchanged_write s s' r l :
  objects s !! r = None -> unchanged s s' -> unchanged s (write r l s').
Proof.
  intros Hr Hs r' l' Hr'. simpl. rewrite lookup_insert_ne; [by apply Hs|].
  intros ->. congruence.
Qed.

Lemma unchanged_None s s' r :
  unchanged s s' -> objects s' !! r = None -> objects s !! r = None.
Proof.
  intros Hs Hr. destruct (objects s !! r) as [l|] eqn:E; [|done].
  apply Hs in E. congruence.
Qed.

Lemma lookup_write_eq s r l : objects (write r l s) !! r = Some l.
Proof. simpl. apply lookup_insert_eq. Qed.

Lemma lookup_write_ne s r r' l :
  r <> r' -> objects (write r l s) !! r' = objects s !! r'.
Proof. intros Hne. simpl. by apply lookup_insert_ne. Qed.

Lemma write_id s r l : objects s !! r = Some l -> write r l s = s.
Proof.
  intros Hr. destruct s as [h t]. unfold write. simpl in *.
  f_equal. by apply insert_id.
Qed.

Lemma write_write s r l1 l2 : write r l2 (write r l1 s) = write r l2 s.
Proof. unfold write. simpl. f_equal. apply insert_insert_eq. Qed.

Lemma ticks_write s r l : ticks (write r l s) = ticks s.
Proof. done. Qed.

Lemma returns_mono {A} (m : M A) s (Q Q' : A -> state -> Prop) :
  returns m s Q -> (forall a s', Q a s' -> Q' a s') -> returns m s Q'.
Proof. intros (a & s' & Hm & HQ) HQQ'. exists a, s'. auto. Qed.

Lemma returns_ret {A} (a : A) s (Q : A -> state -> Prop) :
  Q a s -> returns (mret a) s Q.
Proof. intros HQ. by exists a, s. Qed.

Lemma returns_bind {A B} (m : M A) (f : A -> M B) s (Q : B -> state -> Prop) :
  returns m s (fun a s' => returns (f a) s' Q) -> returns (m ≫= f) s Q.
Proof.
  intros (a & s' & Hm & b & s'' & Hf & HQ). exists b, s''.
  split; [|done]. unfold mbind, M_bind. by rewrite Hm.
Qed.

Lemma returns_lift {A} (o : outcome A) (a : A) s (Q : A -> state -> Prop) :
  o = Returns a -> Q a s -> returns (lift o) s Q.
Proof. intros -> HQ. by exists a, s. Qed.

Lemma returns_new l s (Q : ref -> state -> Prop) :
  (forall r, objects s !! r = None -> Q r (write r l s)) ->
  returns (new l) s Q.
Proof.
  intros HQ. eexists _, _. split; [reflexivity|]. apply HQ.
  apply not_elem_of_dom, is_fresh.
Qed.

Lemma returns_load r l s (Q : list T -> state -> Prop) :
  objects s !! r = Some l -> Q l s -> returns (load r) s Q.
Proof. intros Hr HQ. exists l, s. split; [|done]. unfold load. by rewrite Hr. Qed.

Lemma returns_store r l s (Q : unit -> state -> Prop) :
  Q tt (write r l s) -> returns (store r l) s Q.
Proof. intros HQ. by eexists _, _. Qed.

Lemma returns_py_len r l s (Q : Z -> state -> Prop) :
  objects s !! r = Some l -> Q (len l) s -> returns (py_len r) s Q.
Proof.
  intros Hr HQ. apply returns_bind, (returns_load r l); [done|].
  by apply returns_ret.
Qed.

Lemma returns_py_getitem r l i x s (Q : T -> state -> Prop) :
  objects s !! r = Some l -> getitem l i = Returns x -> Q x s ->
  returns (py_getitem r i) s Q.
Proof.
  intros Hr Hx HQ. apply returns_bind, (returns_load r l); [done|].
  by apply (returns_lift _ x).
Qed.

Lemma returns_py_setitem r l l' i x s (Q : unit -> state -> Prop) :
  objects s !! r = Some l -> setitem l i x = Returns l' ->
  Q tt (write r l' s) -> returns (py_setitem r i x) s Q.
Proof.
  intros Hr Hx HQ. apply returns_bind, (returns_load r l); [done|].
  apply returns_bind, (returns_lift _ l'); [done|]. by apply returns_store.
Qed.

Lemma returns_py_append r l x s (Q : unit -> state -> Prop) :
  objects s !! r = Some l -> Q tt (write r (l ++ [x]) s) ->
  returns (py_append r x) s Q.
Proof.
  intros Hr HQ. apply returns_bind, (returns_load r l); [done|].
  by apply returns_store.
Qed.

Lemma returns_py_extend r other l o s (Q : unit -> state -> Prop) :
  objects s !! r = Some l -> objects s !! other = Some o ->
  Q tt (write r (l ++ o) s) -> returns (py_extend r other) s Q.
Proof.
  intros Hr Ho HQ. apply returns_bind, (returns_load r l); [done|].
  apply returns_bind, (returns_load other o); [done|]. by apply returns_store.
Qed.

Lemma returns_py_slice_to r l i s (Q : ref -> state -> Prop) :
  objects s !! r = Some l ->
  (forall r', objects s !! r' = None -> Q r' (write r' (slice_to l i) s)) ->
  returns (py_slice_to r i) s Q.
Proof.
  intros Hr HQ. apply returns_bind, (returns_load r l); [done|].
  by apply returns_new.
Qed.

Lemma returns_py_slice_from r l i s (Q : ref -> state -> Prop) :
  objects s !! r = Some l ->
  (forall r', objects s !! r' = None -> Q r' (write r' (slice_from l i) s)) ->
  returns (py_slice_from r i) s Q.
Proof.
  intros Hr HQ. apply returns_bind, (returns_load r l); [done|].
  by apply returns_new.
Qed.

Lemma returns_py_list r l s (Q : ref -> state -> Prop) :
  objects s !! r = Some l ->
  (forall r', objects s !! r' = None -> Q r' (write r' l s)) ->
  returns (py_list r) s Q.
Proof.
  intros Hr HQ. apply returns_bind, (returns_load r l); [done|].
  by apply returns_new.
Qed.

(** *** Merge Sort on the store *)

Lemma returns__merge_while (left right result : ref) (L R : list T) :
  result <> left -> result <> right ->
  forall (fuel : nat) (res : list T) (i j : Z) s
         (res' : list T) (i' j' : Z) (Q : Z * Z -> state -> Prop),
    objects s !! left = Some L ->
    objects s !! right = Some R ->
    objects s !! result = Some res ->
    Algorithms._merge_while key L R res i j = Returns (res', i', j') ->
    (Z.to_nat (len L - i) + Z.to_nat (len R - j) < fuel)%nat ->
    Q (i', j') (write result res' s) ->
    returns (_merge_while key fuel left right result i j) s Q.
Proof.
  intros Hrl Hrr. induction fuel as [|fuel IH];
    intros res i j s res' i' j' Q HL HR Hres Hval Hfuel HQ; [lia|].
  rewrite Algorithms._merge_while_equation_1 in Hval. simpl.
  apply returns_bind, (returns_py_len left L); [done|].
  apply returns_bind, (returns_py_len right R); [done|].
  destruct (decide (i < len L /\ j < len R)) as [[Hi Hj]|Hstop].
  - destruct (getitem L i) as [l_i|] eqn:Hli; [|done].
    destruct (getitem R j) as [r_j|] eqn:Hrj; [|done].
    cbn in Hval.
    apply returns_bind, (returns_py_getitem left L i l_i); [done..|].
    apply returns_bind, (returns_py_getitem right R j r_j); [done..|].
    destruct (py_le (key l_i) (key r_j)).
    + apply returns_bind, (returns_py_getitem left L i l_i); [done..|].
      apply returns_bind, (returns_py_append result res); [done|].
      apply (IH (res ++ [l_i]) (i + 1) j _ res' i' j');
        rewrite ?lookup_write_eq, ?lookup_write_ne by done;
        [done|done|done|done|lia|].
      by rewrite write_write.
    + apply returns_bind, (returns_py_getitem right R j r_j); [done..|].
      apply returns_bind, (returns_py_append result res); [done|].
      apply (IH (res ++ [r_j]) i (j + 1) _ res' i' j');
        rewrite ?lookup_write_eq, ?lookup_write_ne by done;
        [done|done|done|done|lia|].
      by rewrite write_write.
  - injection Hval as <- <- <-. apply returns_ret.
    by rewrite write_id in HQ.
Qed.

Lemma returns__merge (left right : ref) (L R out : list T) s
    (Q : ref -> state -> Prop) :
  objects s !! left = Some L ->
  objects s !! right = Some R ->
  Algorithms._merge key L R = Returns out ->
  (forall r s',
      objects s !! r = None -> unchanged s s' -> ticks s' = ticks s ->
      objects s' !! r = Some out -> Q r s') ->
  returns (_merge key left right) s Q.
Proof.
  intros HL HR Hval HQ. unfold Algorithms._merge in Hval.
  destruct (Algorithms._merge_while key L R [] 0 0) as [[[res i'] j']|] eqn:Hw;
    [|done].
  cbn in Hval. injection Hval as <-.
  unfold _merge. apply returns_bind, returns_new. intros r Hr.
  assert (r <> left) as Hrl by (intros ->; congruence).
  assert (r <> right) as Hrr by (intros ->; congruence).
  apply returns_bind, (returns_py_len left L);
    [by rewrite lookup_write_ne|].
  apply returns_bind, (returns_py_len right R);
    [by rewrite lookup_write_ne|].
  apply returns_bind,
    (returns__merge_while left right r L R Hrl Hrr _ [] 0 0 _ res i' j');
    rewrite ?lookup_write_eq, ?lookup_write_ne by done; [done..| |].
  { pose proof (len_nonneg L). pose proof (len_nonneg R). lia. }
  rewrite write_write. set (s1 := write r res s).
  assert (unchanged s s1) as Hs1
    by (apply unchanged_write; [done|apply unchanged_refl]).
  assert (objects s1 !! r = Some res) as Hs1r by apply lookup_write_eq.
  apply returns_bind, (returns_py_slice_from left L);
    [by apply Hs1|]. intros r2 Hr2.
  assert (r2 <> r) as Hrr2 by (intros ->; congruence).
  set (s2 := write r2 (slice_from L i') s1).
  assert (unchanged s s2) as Hs2.
  { apply unchanged_write; [|done]. by apply (unchanged_None s s1). }
  apply returns_bind, (returns_py_extend r r2 res (slice_from L i'));
    [by unfold s2; rewrite lookup_write_ne
    |by apply lookup_write_eq|].
  set (s3 := write r (res ++ slice_from L i') s2).
  assert (unchanged s s3) as Hs3 by (by apply unchanged_write).
  assert (objects s3 !! r = Some (res ++ slice_from L i')) as Hs3r
    by apply lookup_write_eq.
  apply returns_bind, (returns_py_slice_from right R);
    [by apply Hs3|]. intros r3 Hr3.
  assert (r3 <> r) as Hrr3 by (intros ->; congruence).
  set (s4 := write r3 (slice_from R j') s3).
  assert (unchanged s s4) as Hs4.
  { apply unchanged_write; [|done]. by apply (unchanged_None s s3). }
  apply returns_bind,
    (returns_py_extend r r3 (res ++ slice_from L i') (slice_from R j'));
    [by unfold s4; rewrite lookup_write_ne
    |by apply lookup_write_eq|].
  apply returns_ret, HQ; [done| |done|by apply lookup_write_eq].
  by apply unchanged_write.
Qed.

Lemma returns_merge_sort_rec (fuel : nat) :
  forall (data : ref) (S out : list T) s (Q : ref -> state -> Prop),
    objects s !! data = Some S ->
    (length S < fuel)%nat ->
    Algorithms.merge_sort key S = Returns out ->
    (forall r s',
        objects s !! r = None -> unchanged s s' -> ticks s' = ticks s ->
        objects s' !! r = Some out -> Q r s') ->
    returns (merge_sort_rec key fuel data) s Q.
Proof.
  induction fuel as [|fuel IH]; intros data S out s Q HS Hfuel Hval HQ; [lia|].
  rewrite Algorithms.merge_sort_equation_1 in Hval. simpl.
  apply returns_bind, (returns_py_len data S); [done|].
  destruct (decide (len S <= 1)) as [Hshort|Hlong].
  - injection Hval as <-. apply (returns_py_list data S); [done|].
    intros r Hr. apply HQ; [done| |done|by apply lookup_write_eq].
    apply unchanged_write; [done|apply unchanged_refl].
  - cbv zeta in Hval |- *. set (mid := len S / 2) in *.
    assert (0 < mid < len S) as Hmid
      by (subst mid; split; [apply Z.div_str_pos | apply Z.div_lt]; lia).
    destruct (Algorithms.merge_sort key (slice_to S mid)) as [L|] eqn:HL; [|done].
    destruct (Algorithms.merge_sort key (slice_from S mid)) as [R|] eqn:HR; [|done].
    cbn in Hval.
    apply returns_bind, (returns_py_slice_to data S); [done|]. intros h1 Hh1.
    set (s1 := write h1 _ s).
    assert (unchanged s s1) as Hs1
      by (apply unchanged_write; [done|apply unchanged_refl]).
    apply returns_bind, (IH h1 (slice_to S mid) L); [by apply lookup_write_eq| |done|].
    { rewrite slice_to_take, length_take by lia. unfold len in Hmid. lia. }
    intros left s2 Hleft Hs2 Ht2 HleftL.
    apply returns_bind, (returns_py_slice_from data S);
      [by apply Hs2, Hs1|]. intros h2 Hh2.
    set (s3 := write h2 _ s2).
    assert (unchanged s2 s3) as Hs3
      by (apply unchanged_write; [done|apply unchanged_refl]).
    apply returns_bind, (IH h2 (slice_from S mid) R); [by apply lookup_write_eq| |done|].
    { rewrite slice_from_drop, length_drop by lia. unfold len in Hmid. lia. }
    intros right s4 Hright Hs4 Ht4 HrightR.
    apply (returns__merge left right L R out); [by apply Hs4, Hs3| done | done |].
    intros r s5 Hr Hs5 Ht5 Hout. apply HQ; [| |by rewrite Ht5, Ht4; unfold s3; rewrite ticks_write, Ht2|done].
    + apply (unchanged_None s s4); [|done].
      eauto using unchanged_trans.
    + eauto using unchanged_trans.
Qed.

Lemma returns_merge_sort (data : ref) (S out : list T) s
    (Q : ref -> state -> Prop) :
  objects s !! data = Some S ->
  Algorithms.merge_sort key S = Returns out ->
  (forall r s',
      objects s !! r = None -> unchanged s s' -> ticks s' = ticks s ->
      objects s' !! r = Some out -> Q r s') ->
  returns (merge_sort key data) s Q.
Proof.
  intros HS Hval HQ. unfold merge_sort.
  apply returns_bind, (returns_py_len data S); [done|].
  apply (returns_merge_sort_rec _ data S out); [done| |done..].
  unfold len. lia.
Qed.

(** *** Insertion Sort on the store *)

Lemma returns_insertion_sort_while (arr : ref) (current_key : K) :
  forall (fuel : nat) (a : list T) (j : Z) s (a' : list T) (j' : Z)
         (Q : Z -> state -> Prop),
    objects s !! arr = Some a ->
    Algorithms.insertion_sort_while key current_key a j = Returns (a', j') ->
    (Z.to_nat (j + 1) < fuel)%nat ->
    Q j' (write arr a' s) ->
    returns (insertion_sort_while key fuel current_key arr j) s Q.
Proof.
  induction fuel as [|fuel IH]; intros a j s a' j' Q Ha Hval Hfuel HQ; [lia|].
  rewrite Algorithms.insertion_sort_while_equation_1 in Hval. simpl.
  destruct (decide (j >= 0)) as [Hj|Hj].
  - destruct (getitem a j) as [a_j|] eqn:Haj; [|done]. cbn in Hval.
    apply returns_bind, (returns_py_getitem arr a j a_j); [done..|].
    destruct (py_gt (key a_j) current_key).
    + destruct (setitem a (j + 1) a_j) as [a1|] eqn:Ha1; [|done].
      cbn in Hval.
      apply returns_bind, (returns_py_getitem arr a j a_j); [done..|].
      apply returns_bind, (returns_py_setitem arr a a1 (j + 1) a_j); [done..|].
      apply (IH a1 (j - 1) _ a' j'); [apply lookup_write_eq|done|lia|].
      by rewrite write_write.
    + injection Hval as <- <-. apply returns_ret. by rewrite write_id in HQ.
  - injection Hval as <- <-. apply returns_ret. by rewrite write_id in HQ.
Qed.

Lemma returns_insertion_sort_body (arr : ref) (a a' : list T) (i : Z) s
    (Q : unit -> state -> Prop) :
  objects s !! arr = Some a ->
  Algorithms.insertion_sort_body key a i = Returns a' ->
  Q tt (write arr a' s) ->
  returns (insertion_sort_body key arr i) s Q.
Proof.
  intros Ha Hval HQ. unfold Algorithms.insertion_sort_body in Hval.
  destruct (getitem a i) as [current|] eqn:Hcur; [|done]. cbn in Hval.
  destruct (Algorithms.insertion_sort_while key (key current) a (i - 1))
    as [[a1 j1]|] eqn:Hw; [|done].
  cbn in Hval. unfold insertion_sort_body.
  apply returns_bind, (returns_py_getitem arr a i current); [done..|].
  cbv zeta.
  apply returns_bind,
    (returns_insertion_sort_while arr (key current) _ a (i - 1) _ a1 j1);
    [done|done|lia|].
  apply (returns_py_setitem arr a1 a' (j1 + 1) current);
    [apply lookup_write_eq|done|].
  by rewrite write_write.
Qed.

Lemma returns_insertion_sort_for (arr : ref) (indices : list Z) :
  forall (a a' : list T) s (Q : unit -> state -> Prop),
    objects s !! arr = Some a ->
    Algorithms.insertion_sort_for key a indices = Returns a' ->
    Q tt (write arr a' s) ->
    returns (insertion_sort_for key arr indices) s Q.
Proof.
  induction indices as [|i indices IH]; intros a a' s Q Ha Hval HQ; simpl in *.
  - injection Hval as <-. apply returns_ret. by rewrite write_id in HQ.
  - destruct (Algorithms.insertion_sort_body key a i) as [a1|] eqn:Hb; [|done].
    cbn in Hval.
    apply returns_bind, (returns_insertion_sort_body arr a a1); [done..|].
    apply (IH a1 a'); [apply lookup_write_eq|done|].
    by rewrite write_write.
Qed.

Lemma returns_insertion_sort (data : ref) (S out : list T) s
    (Q : ref -> state -> Prop) :
  objects s !! data = Some S ->
  Algorithms.insertion_sort key S = Returns out ->
  (forall r s',
      objects s !! r = None -> unchanged s s' -> ticks s' = ticks s ->
      objects s' !! r = Some out -> Q r s') ->
  returns (insertion_sort key data) s Q.
Proof.
  intros HS Hval HQ. unfold Algorithms.insertion_sort, copy in Hval.
  destruct (Algorithms.insertion_sort_for key S (range 1 (len S)))
    as [a'|] eqn:Hfor; [|done].
  cbn in Hval. injection Hval as <-. unfold insertion_sort.
  apply returns_bind, (returns_py_list data S); [done|]. intros arr Harr.
  apply returns_bind, (returns_py_len arr S); [apply lookup_write_eq|].
  apply returns_bind, (returns_insertion_sort_for arr _ S a');
    [apply lookup_write_eq|done|].
  rewrite write_write. apply returns_ret, HQ;
    [done| |done|apply lookup_write_eq].
  apply unchanged_write; [done|apply unchanged_refl].
Qed.

(** *** The searches on the store *)

Lemma returns_binary_search_while (sorted_data : ref) (target : K)
    (S : list T) :
  forall (fuel : nat) (low high : Z) s (res : option Z)
         (Q : option Z -> state -> Prop),
    objects s !! sorted_data = Some S ->
    Algorithms.binary_search_while key S target low high = Returns res ->
    (Z.to_nat (high - low + 1) < fuel)%nat ->
    Q res s ->
    returns (binary_search_while key fuel sorted_data target low high) s Q.
Proof.
  induction fuel as [|fuel IH]; intros low high s res Q HS Hval Hfuel HQ; [lia|].
  rewrite Algorithms.binary_search_while_equation_1 in Hval. simpl.
  destruct (decide (low <= high)) as [Hle|Hgt].
  - cbv zeta in Hval |- *. pose proof (midpoint_bounds low high Hle) as Hmid.
    set (mid := (low + high) / 2) in *.
    destruct (getitem S mid) as [m|] eqn:Hm; [|done]. cbn in Hval.
    apply returns_bind, (returns_py_getitem sorted_data S mid m); [done..|].
    destruct (py_eq (key m) target).
    + injection Hval as <-. by apply returns_ret.
    + destruct (py_lt (key m) target).
      * apply (IH (mid + 1) high _ res); [done|done|lia|done].
      * apply (IH low (mid - 1) _ res); [done|done|lia|done].
  - injection Hval as <-. by apply returns_ret.
Qed.

Lemma returns_binary_search (sorted_data : ref) (target : K) (S : list T)
    (res : option Z) s (Q : option Z -> state -> Prop) :
  objects s !! sorted_data = Some S ->
  Algorithms.binary_search key S target = Returns res ->
  Q res s ->
  returns (binary_search key sorted_data target) s Q.
Proof.
  intros HS Hval HQ. unfold binary_search.
  apply returns_bind, (returns_py_len sorted_data S); [done|].
  apply (returns_binary_search_while sorted_data target S _ _ _ _ res);
    [done|exact Hval| |done].
  pose proof (len_nonneg S). lia.
Qed.

Lemma returns_linear_search_for (data : ref) (target : K) (xs : list T) :
  forall (fuel n : nat) s (res : option Z) (Q : option Z -> state -> Prop),
    objects s !! data = Some xs ->
    Algorithms.linear_search_for key
      (imap (fun p x => (Z.of_nat (n + p), x)) (drop n xs)) target = Returns res ->
    (length xs - n < fuel)%nat ->
    Q res s ->
    returns (linear_search_for key fuel data target (Z.of_nat n)) s Q.
Proof.
  induction fuel as [|fuel IH]; intros n s res Q HS Hval Hfuel HQ; [lia|].
  simpl. apply returns_bind, (returns_py_len data xs); [done|].
  destruct (decide (Z.of_nat n < len xs)) as [Hn|Hn].
  - destruct (getitem_in_range xs (Z.of_nat n)) as (x & Hx & Hgx); [lia|].
    rewrite Nat2Z.id in Hx.
    apply returns_bind, (returns_py_getitem data xs _ x); [done..|].
    rewrite (drop_S xs x n Hx) in Hval. simpl in Hval.
    replace (n + 0)%nat with n in Hval by lia.
    destruct (py_eq (key x) target).
    + injection Hval as <-. by apply returns_ret.
    + replace (Z.of_nat n + 1) with (Z.of_nat (S n)) by lia.
      apply (IH (S n) _ res); [done| |unfold len in Hn; lia|done].
      rewrite <- Hval. f_equal. apply imap_ext. intros p y _. simpl.
      do 2 f_equal. lia.
  - rewrite drop_ge in Hval by (unfold len in Hn; lia). simpl in Hval.
    injection Hval as <-. by apply returns_ret.
Qed.

Lemma returns_linear_search (data : ref) (target : K) (S : list T)
    (res : option Z) s (Q : option Z -> state -> Prop) :
  objects s !! data = Some S ->
  Algorithms.linear_search key S target = Returns res ->
  Q res s ->
  returns (linear_search key data target) s Q.
Proof.
  intros HS Hval HQ. unfold linear_search.
  apply returns_bind, (returns_py_len data S); [done|].
  apply (returns_linear_search_for data target S _ 0%nat _ res);
    [done|exact Hval|unfold len; lia|done].
Qed.

(** *** Timing *)

Lemma returns_read_timer s (Q : Float.float -> state -> Prop) :
  Q (timer (ticks s)) {| objects := objects s; ticks := S (ticks s) |} ->
  returns (read_timer timer) s Q.
Proof. intros HQ. by eexists _, _. Qed.

Lemma returns_repeat_call {A} (stmt : M A) (I : state -> Prop) (number : nat) :
  (forall s1, I s1 -> returns stmt s1 (fun _ s2 => I s2)) ->
  forall s (Q : unit -> state -> Prop),
    I s -> (forall s', I s' -> Q tt s') ->
    returns (repeat_call stmt number) s Q.
Proof.
  intros Hstmt. induction number as [|number IH]; intros s Q HI HQ; simpl.
  - by apply returns_ret, HQ.
  - apply returns_bind. eapply returns_mono; [by apply Hstmt|].
    intros ? s2 HI2. by apply IH.
Qed.

(** A statement that leaves every object it finds as it is, and does
    not read the timer, is timed between two consecutive readings. *)
Lemma returns_timeit {A} (stmt : M A) (number : Z) s
    (Q : Float.float -> state -> Prop) :
  - PY_SSIZE_T_MAX - 1 <= number <= PY_SSIZE_T_MAX ->
  (forall s1, unchanged s s1 ->
     returns stmt s1 (fun _ s2 => unchanged s1 s2 /\ ticks s2 = ticks s1)) ->
  (forall s', unchanged s s' -> ticks s' = S (S (ticks s)) ->
     Q (Float.sub (timer (S (ticks s))) (timer (ticks s))) s') ->
  returns (timeit timer stmt number) s Q.
Proof.
  intros Hn Hstmt HQ. unfold timeit. rewrite decide_True by done.
  apply returns_bind, returns_read_timer.
  apply returns_bind,
    (returns_repeat_call stmt
       (fun s' => unchanged s s' /\ ticks s' = S (ticks s))).
  - intros s1 [Hs1 Ht1]. eapply returns_mono; [by apply Hstmt|].
    intros ? s2 [Hs2 Ht2]. split; [by eapply unchanged_trans|congruence].
  - split; [by intros r l|done].
  - intros s' [Hs' Ht']. apply returns_bind, returns_read_timer.
    apply returns_ret. rewrite Ht'. by apply HQ.
Qed.

(** A number of runs that is not a [Py_ssize_t]: the error comes
    before the timer is read. *)
Lemma timeit_overflow {A} (stmt : M A) (number : Z) s :
  ~ (- PY_SSIZE_T_MAX - 1 <= number <= PY_SSIZE_T_MAX) ->
  timeit timer stmt number s = (Raises OverflowError, s).
Proof. intros Hn. unfold timeit. by rewrite decide_False. Qed.

(** With [number <= 0] the statement is not run at all. *)
Lemma timeit_no_run {A} (stmt : M A) (number : Z) s :
  - PY_SSIZE_T_MAX - 1 <= number <= 0 ->
  timeit timer stmt number s =
    (Returns (Float.sub (timer (S (ticks s))) (timer (ticks s))),
     {| objects := objects s; ticks := S (S (ticks s)) |}).
Proof.
  intros Hn. unfold timeit.
  rewrite decide_True by (unfold PY_SSIZE_T_MAX in *; lia).
  destruct number as [|p|p]; [done|lia|done].
Qed.

(** The mean of a run in milliseconds, as the benchmarks report it. *)
Lemma mean_ms_returns (total : Float.float) (repeats : Z) s :
  repeats <> 0 ->
  - PY_SSIZE_T_MAX - 1 <= repeats <= PY_SSIZE_T_MAX ->
  mean_ms total repeats s
    = (Returns (Float.round2
                  (Float.mul (Float.div total (Float.of_int repeats))
                     (Float.of_int 1000))), s).
Proof.
  intros Hne Hn. unfold mean_ms, py_truediv.
  destruct (of_int_finite repeats) as (m & e & -> & _);
    [done|unfold PY_SSIZE_T_MAX in *; lia|done].
Qed.


Lemma returns_mean_ms (total : Float.float) (repeats : Z) s
    (Q : Float.float -> state -> Prop) :
  repeats <> 0 ->
  - PY_SSIZE_T_MAX - 1 <= repeats <= PY_SSIZE_T_MAX ->
  Q (Float.round2
       (Float.mul (Float.div total (Float.of_int repeats))
          (Float.of_int 1000))) s ->
  returns (mean_ms total repeats) s Q.
Proof.
  intros Hne Hn HQ. eexists _, s. by rewrite mean_ms_returns.
Qed.

(** The sign of a timing is the sign of [repeats]. *)
Lemma timing_sign (t : nat) (repeats : Z) :
  monotonic timer ->
  repeats <> 0 ->
  - PY_SSIZE_T_MAX - 1 <= repeats <= PY_SSIZE_T_MAX ->
  Float.sign_class (repeats <? 0)
    (Float.round2
       (Float.mul
          (Float.div (Float.sub (timer (S t)) (timer t)) (Float.of_int repeats))
          (Float.of_int 1000))).
Proof.
  intros [Hfv Hle] Hne Hn.
  destruct (of_int_finite repeats) as (m & e & -> & _);
    [done|unfold PY_SSIZE_T_MAX in *; lia|].
  change (Float.of_int 1000) with (S754_finite false 8796093022208000 (-43)).
  apply round2_sign. set (sy := repeats <? 0).
  assert (Float.sign_class false (Float.sub (timer (S t)) (timer t))) as H1
    by (apply sub_sign; try apply Hfv; apply Hle; lia).
  pose proof (mul_sign _ false _ 8796093022208000 (-43)
                (div_sign _ sy _ m e H1)) as H2.
  by destruct sy.
Qed.

(** With a clock in seconds a timing of [repeats >= 1] runs is a finite
    number with two decimals. *)
Lemma timing_finite (t : nat) (repeats : Z) :
  monotonic timer -> seconds timer ->
  1 <= repeats <= PY_SSIZE_T_MAX ->
  let v := Float.round2
             (Float.mul
                (Float.div (Float.sub (timer (S t)) (timer t))
                   (Float.of_int repeats))
                (Float.of_int 1000)) in
  Float.is_finite v = true /\ Float.two_decimals v.
Proof.
  intros [Hfv Hle] Hsec Hn.
  destruct (of_int_finite repeats) as (m & e & -> & Hme);
    [lia|unfold PY_SSIZE_T_MAX in *; lia|].
  change (Float.of_int 1000) with (S754_finite false 8796093022208000 (-43)).
  assert (Float.within 63 (timer (S t))) as H1.
  { apply within_le_pow62; try apply Hfv; apply Hsec. }
  assert (Float.within (63 + 1) (Float.sub (timer (S t)) (timer t))) as H2.
  { apply sub_within; try apply Hfv; try done.
    - apply Hsec.
    - apply Hle. lia. }
  assert (Float.within (64 + 1)
            (Float.div (Float.sub (timer (S t)) (timer t))
               (S754_finite (repeats <? 0) m e))) as H3
    by (by apply div_within).
  assert (Float.within (65 + 10 + 1)
            (Float.mul
               (Float.div (Float.sub (timer (S t)) (timer t))
                  (S754_finite (repeats <? 0) m e))
               (S754_finite false 8796093022208000 (-43)))) as H4
    by (by apply mul_within).
  simpl. split.
  - by apply (round2_finite _ (65 + 10 + 1)).
  - apply round2_two_decimals. by eapply within_finite.
Qed.

(** *** The statements the benchmarks time *)

Lemma timed_merge_sort (data : ref) (xs : list T) s :
  objects s !! data = Some xs ->
  returns (merge_sort key data) s
    (fun _ s' => unchanged s s' /\ ticks s' = ticks s).
Proof.
  intros Hxs. destruct (merge_sort_spec key xs) as (out & Hout & _).
  by apply (returns_merge_sort data xs out).
Qed.

Lemma timed_py_sorted (data : ref) (xs : list T) s :
  objects s !! data = Some xs ->
  returns (py_sorted key data) s
    (fun _ s' => unchanged s s' /\ ticks s' = ticks s).
Proof.
  intros Hxs. apply returns_bind, (returns_load data xs); [done|].
  apply returns_new. intros r Hr. split; [|done].
  apply unchanged_write; [done|apply unchanged_refl].
Qed.

Lemma timed_binary_search (data : ref) (target : K) (xs : list T) s :
  objects s !! data = Some xs ->
  returns (binary_search key data target) s
    (fun _ s' => unchanged s s' /\ ticks s' = ticks s).
Proof.
  intros Hxs.
  destruct (binary_search_while_returns key xs target 0 (len xs - 1))
    as (res & Hres & _); [lia..|].
  apply (returns_binary_search data target xs res); [done..|].
  split; [apply unchanged_refl|done].
Qed.

Lemma timed_linear_search (data : ref) (target : K) (xs : list T) s :
  objects s !! data = Some xs ->
  returns (linear_search key data target) s
    (fun _ s' => unchanged s s' /\ ticks s' = ticks s).
Proof.
  intros Hxs. pose proof (linear_search_for_spec key xs target 0) as Hspec.
  destruct (Algorithms.linear_search key xs target) as [res|] eqn:Hres.
  - apply (returns_linear_search data target xs res); [done..|].
    split; [apply unchanged_refl|done].
  - unfold Algorithms.linear_search, enumerate in Hres. simpl in Hspec.
    by rewrite Hres in Hspec.
Qed.

Lemma timed_py_in_keys (data : ref) (target : K) (xs : list T) s :
  objects s !! data = Some xs ->
  returns (py_in_keys key target data) s
    (fun _ s' => unchanged s s' /\ ticks s' = ticks s).
Proof.
  intros Hxs. apply returns_bind, (returns_load data xs); [done|].
  apply returns_ret. split; [apply unchanged_refl|done].
Qed.

(** *** The benchmarks *)

Lemma returns_benchmark_sort (data : ref) (xs : list T) (repeats : Z) s
    (Q : gmap string Float.float -> state -> Prop) :
  objects s !! data = Some xs ->
  repeats <> 0 ->
  - PY_SSIZE_T_MAX - 1 <= repeats <= PY_SSIZE_T_MAX ->
  let ms := fun n : nat =>
    Float.round2
      (Float.mul
         (Float.div (Float.sub (timer (S n + ticks s)) (timer (n + ticks s)))
            (Float.of_int repeats))
         (Float.of_int 1000)) in
  (forall s', unchanged s s' -> ticks s' = (4 + ticks s)%nat ->
     Q (<["builtin_sorted_ms" := ms 2%nat]>
          (<["merge_sort_ms" := ms 0%nat]> ∅)) s') ->
  returns (benchmark_sort key timer data repeats) s Q.
Proof.
  intros Hxs Hne Hn ms HQ. unfold benchmark_sort.
  apply returns_bind, returns_timeit; [done|..].
  { intros s1 Hs1. apply (timed_merge_sort data xs). by apply Hs1. }
  intros s1 Hs1 Ht1. apply returns_bind, returns_timeit; [done|..].
  { intros s2 Hs2. apply (timed_py_sorted data xs). by apply Hs2, Hs1. }
  intros s2 Hs2 Ht2.
  apply returns_bind, returns_mean_ms; [done..|].
  apply returns_bind, returns_mean_ms; [done..|].
  apply returns_ret. rewrite Ht1. apply HQ.
  - by eapply unchanged_trans.
  - by rewrite Ht2, Ht1.
Qed.

Lemma returns_benchmark_search (data : ref) (xs : list T) (target : K)
    (repeats : Z) s (Q : gmap string Float.float -> state -> Prop) :
  objects s !! data = Some xs ->
  repeats <> 0 ->
  - PY_SSIZE_T_MAX - 1 <= repeats <= PY_SSIZE_T_MAX ->
  let ms := fun n : nat =>
    Float.round2
      (Float.mul
         (Float.div (Float.sub (timer (S n + ticks s)) (timer (n + ticks s)))
            (Float.of_int repeats))
         (Float.of_int 1000)) in
  (forall s', unchanged s s' -> ticks s' = (6 + ticks s)%nat ->
     Q (<["builtin_in_ms" := ms 4%nat]>
          (<["linear_search_ms" := ms 2%nat]>
             (<["binary_search_ms" := ms 0%nat]> ∅))) s') ->
  returns (benchmark_search key timer data target repeats) s Q.
Proof.
  intros Hxs Hne Hn ms HQ. unfold benchmark_search.
  apply returns_bind, returns_timeit; [done|..].
  { intros s1 Hs1. apply (timed_binary_search data target xs). by apply Hs1. }
  intros s1 Hs1 Ht1. apply returns_bind, returns_timeit; [done|..].
  { intros s2 Hs2. apply (timed_linear_search data target xs).
    by apply Hs2, Hs1. }
  intros s2 Hs2 Ht2. apply returns_bind, returns_timeit; [done|..].
  { intros s3 Hs3. apply (timed_py_in_keys data target xs).
    by apply Hs3, Hs2, Hs1. }
  intros s3 Hs3 Ht3.
  apply returns_bind, returns_mean_ms; [done..|].
  apply returns_bind, returns_mean_ms; [done..|].
  apply returns_bind, returns_mean_ms; [done..|].
  apply returns_ret. rewrite Ht2, Ht1. apply HQ.
  - eauto using unchanged_trans.
  - by rewrite Ht3, Ht2, Ht1.
Qed.

(** With [repeats = 0] nothing is timed and the mean is a division by
    zero. *)
Lemma benchmark_sort_zero (data : ref) s :
  exists s',
    benchmark_sort key timer data 0 s = (Raises ZeroDivisionError, s') /\
    objects s' = objects s.
Proof.
  eexists. unfold benchmark_sort, mbind, M_bind.
  by rewrite !timeit_no_run by (unfold PY_SSIZE_T_MAX; lia).
Qed.

Lemma benchmark_search_zero (data : ref) (target : K) s :
  exists s',
    benchmark_search key timer data target 0 s = (Raises ZeroDivisionError, s') /\
    objects s' = objects s.
Proof.
  eexists. unfold benchmark_search, mbind, M_bind.
  by rewrite !timeit_no_run by (unfold PY_SSIZE_T_MAX; lia).
Qed.

(** With a [repeats] that is not a [Py_ssize_t] the first [timeit]
    raises, and nothing else happens. *)
Lemma benchmark_sort_overflow (data : ref) (repeats : Z) s :
  ~ (- PY_SSIZE_T_MAX - 1 <= repeats <= PY_SSIZE_T_MAX) ->
  benchmark_sort key timer data repeats s = (Raises OverflowError, s).
Proof.
  intros Hn. unfold benchmark_sort, mbind, M_bind.
  by rewrite timeit_overflow.
Qed.

Lemma benchmark_search_overflow (data : ref) (target : K) (repeats : Z) s :
  ~ (- PY_SSIZE_T_MAX - 1 <= repeats <= PY_SSIZE_T_MAX) ->
  benchmark_search key timer data target repeats s = (Raises OverflowError, s).
Proof.
  intros Hn. unfold benchmark_search, mbind, M_bind.
  by rewrite timeit_overflow.
Qed.

(** Whatever [repeats] is, and however the run ends, a benchmark
    leaves the objects it finds as they are. *)
Lemma benchmark_sort_frame (data : ref) (xs : list T) (repeats : Z) s :
  objects s !! data = Some xs ->
  unchanged s (benchmark_sort key timer data repeats s).2.
Proof.
  intros Hxs.
  destruct (decide (- PY_SSIZE_T_MAX - 1 <= repeats <= PY_SSIZE_T_MAX))
    as [Hn|Hn]; [|rewrite benchmark_sort_overflow by done; apply unchanged_refl].
  destruct (decide (repeats = 0)) as [->|Hne].
  - destruct (benchmark_sort_zero data s) as (s' & -> & Hobj).
    intros r l. simpl. by rewrite Hobj.
  - destruct (returns_benchmark_sort data xs repeats s
                (fun _ s' => unchanged s s')) as (res & s' & -> & Hs');
      done.
Qed.

Lemma benchmark_search_frame (data : ref) (xs : list T) (target : K)
    (repeats : Z) s :
  objects s !! data = Some xs ->
  unchanged s (benchmark_search key timer data target repeats s).2.
Proof.
  intros Hxs.
  destruct (decide (- PY_SSIZE_T_MAX - 1 <= repeats <= PY_SSIZE_T_MAX))
    as [Hn|Hn];
    [|rewrite benchmark_search_overflow by done; apply unchanged_refl].
  destruct (decide (repeats = 0)) as [->|Hne].
  - destruct (benchmark_search_zero data target s) as (s' & -> & Hobj).
    intros r l. simpl. by rewrite Hobj.
  - destruct (returns_benchmark_search data xs target repeats s
                (fun _ s' => unchanged s s')) as (res & s' & -> & Hs');
      done.
Qed.
End StoreFacts.

(** * Python integers as keys *)

Lemma Z_le_total (a b : Z) : (a <=? b) = true \/ (b <=? a) = true.
Proof. rewrite !Z.leb_le. lia. Qed.

Lemma Z_le_trans (a b c : Z) : (a <=? b) = true -> (b <=? c) = true -> (a <=? c) = true.
Proof. rewrite !Z.leb_le. lia. Qed.

Lemma Z_le_antisym (a b : Z) : (a <=? b) = true -> (b <=? a) = true -> a = b.
Proof. rewrite !Z.leb_le. lia. Qed.

Lemma Z_lt_spec (a b : Z) : (a <? b) = negb (b <=? a).
Proof. apply Z.ltb_antisym. Qed.

Lemma Z_gt_spec (a b : Z) : (a >? b) = negb (a <=? b).
Proof. rewrite Z.gtb_ltb. apply Z.ltb_antisym. Qed.

(** Python integers as keys. *)
#[export] Instance Z_PyOrd : PyOrd Z := {|
  py_le := Z.leb; py_lt := Z.ltb; py_gt := Z.gtb; py_eq := Z.eqb;
  py_eq_spec := Z.eqb_eq;
  py_le_total := Z_le_total;
  py_le_trans := Z_le_trans;
  py_le_antisym := Z_le_antisym;
  py_lt_spec := Z_lt_spec;
  py_gt_spec := Z_gt_spec
|}.

(** * The specification of the algorithms *)

Section Claims.
Context {T K : Type} `{PyOrd K}.
Variable key : T -> K.
Import Algorithms.

(** C1. For every list and key function, [merge_sort] and
    [insertion_sort] both return a list that is a permutation of the
    input, hence of equal length, and whose elements are in
    non-descending order of their keys. *)
Theorem sort_permutation_non_descending (data : list T) :
  (exists out,
      merge_sort key data = Returns out /\
      out ≡ₚ data /\ length out = length data /\ non_descending key out) /\
  (exists out,
      insertion_sort key data = Returns out /\
      out ≡ₚ data /\ length out = length data /\ non_descending key out).
Proof.
  split.
  - destruct (merge_sort_spec key data) as (out & Hout & Hperm & Hs & _).
    exists out. split; [done|]. split; [done|].
    split; [by rewrite Hperm|]. by apply sorted_non_descending.
  - destruct (insertion_sort_spec key data) as (out & Hout & Hperm & Hs & _).
    exists out. split; [done|]. split; [done|].
    split; [by rewrite Hperm|]. by apply sorted_non_descending.
Qed.

(** C2. On a list sorted ascending by key, [binary_search] for the key
    of any element of the list returns an index holding that key; and
    for a target that is the key of no element it returns [None], the
    not-found marker, without raising. *)
Theorem binary_search_correct (sorted_data : list T) :
  non_descending key sorted_data ->
  (forall e, e ∈ sorted_data ->
     exists (i : Z) (x : T),
       binary_search key sorted_data (key e) = Returns (Some i) /\
       0 <= i < len sorted_data /\
       sorted_data !! Z.to_nat i = Some x /\ key x = key e) /\
  (forall target,
     (forall x, x ∈ sorted_data -> key x <> target) ->
     binary_search key sorted_data target = Returns None).
Proof.
  intros Hnd. pose proof (len_nonneg sorted_data) as Hlen. split.
  - intros e [p Hp]%list_elem_of_lookup.
    apply lookup_lt_Some in Hp as Hlt.
    destruct (binary_search_while_finds key sorted_data (key e) 0
                (len sorted_data - 1)) as [i Hi];
      [by apply sorted_non_descending|lia|lia| |].
    { exists p, e. unfold len. split; [lia|done]. }
    destruct (binary_search_while_returns key sorted_data (key e) 0
                (len sorted_data - 1)) as (r & Hr & Hin); [lia|lia|].
    rewrite Hi in Hr. injection Hr as <-.
    destruct (Hin i eq_refl) as (Hrange & x & Hx & Hkey).
    exists i, x. split; [exact Hi|]. split; [lia|done].
  - intros target Habsent.
    destruct (binary_search_while_returns key sorted_data target 0
                (len sorted_data - 1)) as (r & Hr & Hin); [lia|lia|].
    unfold binary_search. simpl. rewrite Hr. destruct r as [i|]; [|done].
    destruct (Hin i eq_refl) as (_ & x & Hx & Hkey).
    exfalso. apply (Habsent x); [|done].
    apply list_elem_of_lookup. by eexists.
Qed.

(** C3. Both sorts are stable: the elements whose keys compare equal
    stand in the output in the order they have in the input.  The
    merge step takes from the left list on a tie, and insertion sort
    moves an element only past strictly greater keys. *)
Theorem sort_stable (data : list T) :
  (exists out, merge_sort key data = Returns out /\ stable key data out) /\
  (exists out, insertion_sort key data = Returns out /\ stable key data out) /\
  (forall x y, py_le (key x) (key y) = true ->
               _merge key [x] [y] = Returns [x; y]) /\
  (forall x y, py_gt (key x) (key y) = false ->
               insertion_sort key [x; y] = Returns [x; y]).
Proof.
  split; [|split; [|split]].
  - destruct (merge_sort_spec key data) as (out & Hout & _ & _ & Hst).
    by exists out.
  - destruct (insertion_sort_spec key data) as (out & Hout & _ & _ & Hst).
    by exists out.
  - intros x y Hle. rewrite _merge_list_merge, list_merge_cons.
    by rewrite decide_True.
  - intros x y Hgt. unfold insertion_sort, copy, range.
    change (seqZ 1 (len [x; y] - 1)) with [1]. simpl.
    unfold insertion_sort_body.
    change (getitem [x; y] 1) with (Returns y). simpl.
    rewrite insertion_sort_while_equation_1.
    change (getitem [x; y] (1 - 1)) with (Returns x). simpl.
    by rewrite Hgt.
Qed.

(** C4. Without any ordering of the list, [linear_search] returns the
    smallest index whose element has the target key when there is one,
    and [None] when there is none; [linear_search([10,20,10], 10)] is
    0. *)
Theorem linear_search_first_match (data : list T) (target : K) :
  ((exists x, x ∈ data /\ key x = target) ->
   exists i, linear_search key data target = Returns (Some i) /\
             first_match key target data i) /\
  ((forall x, x ∈ data -> key x <> target) ->
   linear_search key data target = Returns None) /\
  linear_search (fun x : Z => x) [10; 20; 10] 10 = Returns (Some 0).
Proof.
  pose proof (linear_search_for_spec key data target 0) as Hspec.
  simpl in Hspec. unfold linear_search, enumerate.
  split; [|split; [|reflexivity]].
  - intros (x & Hx & Hkey).
    destruct (linear_search_for key _ target) as [[i|]|]; [| |done].
    + destruct Hspec as (p & y & -> & Hy & Hk & Hfirst).
      exists (Z.of_nat p). split; [done|]. unfold first_match.
      rewrite Nat2Z.id. split; [lia|]. split; [by exists y|done].
    + by destruct (Hspec x Hx).
  - intros Habsent.
    destruct (linear_search_for key _ target) as [[i|]|]; [|done|done].
    destruct Hspec as (p & y & _ & Hy & Hk & _).
    exfalso. apply (Habsent y); [|done].
    apply list_elem_of_lookup. by eexists.
Qed.

(** C5. [binary_search] terminates on every input.  It starts from the
    closed interval [0, n-1]; a pass with [low > high] returns [None];
    a pass with [low <= high] reads the element at the midpoint
    [(low + high) / 2], which is inside the list, and returns the
    midpoint on an equal key, goes on with [low = mid + 1] on a
    smaller key and with [high = mid - 1] on a greater one, on a
    strictly narrower interval each time; so every run returns. *)
Theorem binary_search_terminates (sorted_data : list T) (target : K) :
  (exists r, binary_search key sorted_data target = Returns r) /\
  binary_search key sorted_data target =
    binary_search_while key sorted_data target 0 (len sorted_data - 1) /\
  forall low high : Z,
    0 <= low -> high < len sorted_data ->
    (exists r, binary_search_while key sorted_data target low high = Returns r) /\
    (low > high ->
     binary_search_while key sorted_data target low high = Returns None) /\
    (low <= high ->
     let mid := (low + high) / 2 in
     exists m,
       getitem sorted_data mid = Returns m /\
       if py_eq (key m) target then
         binary_search_while key sorted_data target low high
           = Returns (Some mid)
       else if py_lt (key m) target then
         binary_search_while key sorted_data target low high
           = binary_search_while key sorted_data target (mid + 1) high /\
         0 <= mid + 1 /\ high - (mid + 1) < high - low
       else
         binary_search_while key sorted_data target low high
           = binary_search_while key sorted_data target low (mid - 1) /\
         mid - 1 < len sorted_data /\ (mid - 1) - low < high - low).
Proof.
  pose proof (len_nonneg sorted_data) as Hlen.
  split; [|split; [reflexivity|]].
  - destruct (binary_search_while_returns key sorted_data target 0
                (len sorted_data - 1)) as (r & Hr & _); [lia|lia|].
    by exists r.
  - intros low high Hlow Hhigh. split; [|split].
    + destruct (binary_search_while_returns key sorted_data target low high)
        as (r & Hr & _); [done..|]. by exists r.
    + intros Hgt. rewrite binary_search_while_equation_1.
      by rewrite decide_False by lia.
    + intros Hle. cbv zeta. pose proof (midpoint_bounds low high Hle) as Hmid.
      rewrite binary_search_while_equation_1, decide_True by done.
      cbv zeta. set (mid := (low + high) / 2) in *.
      destruct (getitem_in_range sorted_data mid) as (m & _ & Hm); [lia|].
      exists m. split; [done|]. rewrite Hm. cbn.
      destruct (py_eq (key m) target); [done|].
      destruct (py_lt (key m) target); (split; [done|lia]).
Qed.

(** C8. Sorting is idempotent: sorting the output of a sort gives that
    output again, for both sorts. *)
Theorem sort_idempotent (data : list T) :
  (exists out,
      merge_sort key data = Returns out /\ merge_sort key out = Returns out) /\
  (exists out,
      insertion_sort key data = Returns out /\
      insertion_sort key out = Returns out).
Proof.
  split.
  - destruct (merge_sort_spec key data) as (out & Hout & _ & Hs & _).
    exists out. split; [done|].
    destruct (merge_sort_spec key out) as (out' & -> & _ & Hs' & Hst').
    f_equal. apply (sorted_stable_unique key); [done..|].
    intros k. by rewrite Hst'.
  - destruct (insertion_sort_spec key data) as (out & Hout & _ & Hs & _).
    exists out. split; [done|].
    destruct (insertion_sort_spec key out) as (out' & -> & _ & Hs' & Hst').
    f_equal. apply (sorted_stable_unique key); [done..|].
    intros k. by rewrite Hst'.
Qed.

(** C9. [merge_sort] never raises: on every list it returns; on a
    list of length at most 1 it returns a list with the same elements;
    and on the store the list it returns is a new object, whatever the
    length, so that the copy of a short list is not the input itself. *)
Theorem merge_sort_never_raises (data : list T) :
  (exists out, merge_sort key data = Returns out) /\
  (len data <= 1 -> merge_sort key data = Returns data) /\
  (forall (s : Store.state) (r : Store.ref),
     Store.objects s !! r = Some data ->
     Store.returns (Store.merge_sort key r) s
       (fun r' s' =>
          Store.objects s !! r' = None /\
          exists out,
            merge_sort key data = Returns out /\
            Store.objects s' !! r' = Some out /\
            Store.objects s' !! r = Some data)).
Proof.
  destruct (merge_sort_spec key data) as (out & Hout & _).
  split; [by exists out|]. split.
  - intros Hshort. rewrite merge_sort_equation_1. by rewrite decide_True.
  - intros s r Hr. apply (returns_merge_sort key r data out); [done..|].
    intros r' s' Hfresh Hs' _ Hr'. split; [done|].
    exists out. split; [done|]. split; [done|]. by apply Hs'.
Qed.

(** C10. The two sorts agree: [merge_sort] and [insertion_sort] return
    the same list on every input. *)
Theorem merge_sort_insertion_sort_agree (data : list T) :
  merge_sort key data = insertion_sort key data.
Proof.
  destruct (merge_sort_spec key data) as (m & -> & _ & Hms & Hmst).
  destruct (insertion_sort_spec key data) as (i & -> & _ & His & Hist).
  f_equal. apply (sorted_stable_unique key); [done..|].
  intros k. by rewrite Hmst, Hist.
Qed.
End Claims.

Section StoreClaims.
Context {T K : Type} `{PyOrd K}.
Variable key : T -> K.
Variable timer : nat -> Float.float.
Import Store.

Lemma timing_reported (t : nat) (repeats : Z) :
  monotonic timer -> seconds timer ->
  1 <= repeats <= PY_SSIZE_T_MAX ->
  let v := Float.round2
             (Float.mul
                (Float.div (Float.sub (timer (S t)) (timer t))
                   (Float.of_int repeats))
                (Float.of_int 1000)) in
  Float.is_finite v = true /\ Float.leb Float.zero v = true /\
  Float.two_decimals v.
Proof.
  intros Hmono Hsec Hn v.
  destruct (timing_finite timer t repeats Hmono Hsec Hn) as [Hf H2].
  split; [done|]. split; [|done].
  apply leb_zero_sign.
  replace false with (repeats <? 0) by (apply Z.ltb_ge; lia).
  apply timing_sign; [done|lia|unfold PY_SSIZE_T_MAX in *; lia].
Qed.

(** C6, as the code has it.  The timer is a monotonic clock: its
    readings are finite doubles, in seconds between 0 and [2 ^ 62], and
    never run backwards.  For a non-empty list and
    [1 <= repeats <= 2 ^ 63 - 1], [benchmark_sort] returns a mapping with
    exactly the keys [merge_sort_ms] and [builtin_sorted_ms], and
    [benchmark_search] one with exactly the keys [binary_search_ms],
    [linear_search_ms] and [builtin_in_ms]; each value is the time
    between two consecutive readings of the timer, divided by [repeats],
    in milliseconds, rounded to two decimals; it is a finite double that
    is zero or more and is the double nearest to a whole number of
    hundredths: [0.0] when the mean time of a run rounds to zero.  For a
    larger [repeats] both raise [OverflowError] before the timer is
    read. *)
Theorem benchmark_timings (data : ref) (xs : list T) (target : K)
    (repeats : Z) (s : state) :
  monotonic timer ->
  seconds timer ->
  objects s !! data = Some xs ->
  xs <> [] ->
  1 <= repeats ->
  let ms := fun n : nat =>
    Float.round2
      (Float.mul
         (Float.div (Float.sub (timer (S n + ticks s)) (timer (n + ticks s)))
            (Float.of_int repeats))
         (Float.of_int 1000)) in
  (repeats <= PY_SSIZE_T_MAX ->
   returns (benchmark_sort key timer data repeats) s
     (fun res _ =>
        res = <["builtin_sorted_ms" := ms 2%nat]>
                (<["merge_sort_ms" := ms 0%nat]> ∅) /\
        dom res = ({["merge_sort_ms"; "builtin_sorted_ms"]} : gset string) /\
        forall name v, res !! name = Some v ->
          Float.is_finite v = true /\ Float.leb Float.zero v = true /\
          Float.two_decimals v) /\
   returns (benchmark_search key timer data target repeats) s
     (fun res _ =>
        res = <["builtin_in_ms" := ms 4%nat]>
                (<["linear_search_ms" := ms 2%nat]>
                   (<["binary_search_ms" := ms 0%nat]> ∅)) /\
        dom res = ({["binary_search_ms"; "linear_search_ms";
                     "builtin_in_ms"]} : gset string) /\
        forall name v, res !! name = Some v ->
          Float.is_finite v = true /\ Float.leb Float.zero v = true /\
          Float.two_decimals v)) /\
  (PY_SSIZE_T_MAX < repeats ->
   benchmark_sort key timer data repeats s = (Raises OverflowError, s) /\
   benchmark_search key timer data target repeats s
     = (Raises OverflowError, s)).
Proof.
  intros Hmono Hsec Hxs _ Hrep ms. split.
  - intros Hmax.
    assert (- PY_SSIZE_T_MAX - 1 <= repeats <= PY_SSIZE_T_MAX) as Hn
      by (unfold PY_SSIZE_T_MAX in *; lia).
    split.
    + apply (returns_benchmark_sort key timer data xs); [done|lia|done|].
      intros s' _ _. split; [done|]. split.
      * rewrite !dom_insert_L, dom_empty_L. set_solver.
      * intros name v Hv.
        repeat (apply lookup_insert_Some in Hv as [[_ <-]|[_ Hv]];
                [by apply timing_reported|]).
        by rewrite lookup_empty in Hv.
    + apply (returns_benchmark_search key timer data xs); [done|lia|done|].
      intros s' _ _. split; [done|]. split.
      * rewrite !dom_insert_L, dom_empty_L. set_solver.
      * intros name v Hv.
        repeat (apply lookup_insert_Some in Hv as [[_ <-]|[_ Hv]];
                [by apply timing_reported|]).
        by rewrite lookup_empty in Hv.
  - intros Hmax. split.
    + apply benchmark_sort_overflow. lia.
    + apply benchmark_search_overflow. lia.
Qed.

(** C7. No operation changes the caller's list: when [data] is a list
    object with elements [xs], after [merge_sort], [insertion_sort],
    [binary_search], [linear_search], [benchmark_sort] or
    [benchmark_search] every object that was in the store, [data]
    among them, has the elements it had.  The four algorithms return;
    the sorts return a new object, and [insertion_sort] writes to that
    copy only. *)
Theorem input_list_never_mutated (data : ref) (xs : list T) (target : K)
    (repeats : Z) (s : state) :
  objects s !! data = Some xs ->
  returns (merge_sort key data) s
    (fun r s' => unchanged s s' /\ objects s' !! data = Some xs /\ r <> data) /\
  returns (insertion_sort key data) s
    (fun r s' => unchanged s s' /\ objects s' !! data = Some xs /\ r <> data) /\
  returns (binary_search key data target) s
    (fun _ s' => unchanged s s' /\ objects s' !! data = Some xs) /\
  returns (linear_search key data target) s
    (fun _ s' => unchanged s s' /\ objects s' !! data = Some xs) /\
  (let s' := (benchmark_sort key timer data repeats s).2 in
   unchanged s s' /\ objects s' !! data = Some xs) /\
  (let s' := (benchmark_search key timer data target repeats s).2 in
   unchanged s s' /\ objects s' !! data = Some xs).
Proof.
  intros Hxs. repeat split.
  - destruct (merge_sort_spec key xs) as (out & Hout & _).
    apply (returns_merge_sort key data xs out); [done..|].
    intros r s' Hr Hs' _ _. split; [done|]. split; [by apply Hs'|].
    intros ->. congruence.
  - destruct (insertion_sort_spec key xs) as (out & Hout & _).
    apply (returns_insertion_sort key data xs out); [done..|].
    intros r s' Hr Hs' _ _. split; [done|]. split; [by apply Hs'|].
    intros ->. congruence.
  - eapply returns_mono; [by apply (timed_binary_search key data target xs)|].
    intros ? s' [Hs' _]. split; [done|by apply Hs'].
  - eapply returns_mono; [by apply (timed_linear_search key data target xs)|].
    intros ? s' [Hs' _]. split; [done|by apply Hs'].
  - by apply (benchmark_sort_frame key timer data xs).
  - by apply (benchmark_sort_frame key timer data xs).
  - by apply (benchmark_search_frame key timer data xs).
  - by apply (benchmark_search_frame key timer data xs).
Qed.
End StoreClaims.

(** * The specification at concrete inputs *)

(** The scenarios of the specification, run on integer lists with the
    identity key. *)

Example merge_sort_scenario :
  Algorithms.merge_sort (fun x : Z => x) [5; 3; 1; 4; 2] = Returns [1; 2; 3; 4; 5].
Proof. reflexivity. Qed.

Example insertion_sort_scenario :
  Algorithms.insertion_sort (fun x : Z => x) [] = Returns [].
Proof. reflexivity. Qed.

Example binary_search_found_scenario :
  Algorithms.binary_search (fun x : Z => x) [1; 3; 5; 7; 9] 7 = Returns (Some 3).
Proof. reflexivity. Qed.

Example binary_search_absent_scenario :
  Algorithms.binary_search (fun x : Z => x) [1; 3; 5; 7; 9] 4 = Returns None.
Proof. reflexivity. Qed.

Lemma binary_search_correct_witness :
  non_descending (fun x : Z => x) [1; 3; 5; 7; 9] /\
  ((forall e : Z, e ∈ [1; 3; 5; 7; 9] ->
      exists (i : Z) (x : Z),
        Algorithms.binary_search (fun x : Z => x) [1; 3; 5; 7; 9] e
          = Returns (Some i) /\
        0 <= i < len [1; 3; 5; 7; 9] /\
        [1; 3; 5; 7; 9] !! Z.to_nat i = Some x /\ x = e) /\
   (forall target : Z,
      (forall x : Z, x ∈ [1; 3; 5; 7; 9] -> x <> target) ->
      Algorithms.binary_search (fun x : Z => x) [1; 3; 5; 7; 9] target
        = Returns None)).
Proof.
  assert (Hs : non_descending (fun x : Z => x) [1; 3; 5; 7; 9])
    by (apply is_sorted_spec; reflexivity).
  split; [exact Hs|].
  exact (binary_search_correct (fun x : Z => x) [1; 3; 5; 7; 9] Hs).
Defined.

Lemma sort_stable_witness :
  py_le 4 4 = true /\
  Algorithms._merge (fun p : Z * Z => p.1) [(4, 0)] [(4, 1)]
    = Returns [(4, 0); (4, 1)].
Proof.
  assert (Hle : py_le 4 4 = true) by reflexivity.
  split; [exact Hle|].
  exact (proj1 (proj2 (proj2 (sort_stable (fun p : Z * Z => p.1) [])))
           (4, 0) (4, 1) Hle).
Defined.

Lemma linear_search_first_match_witness :
  (exists x : Z, x ∈ [10; 20; 10] /\ x = 10) /\
  exists i : Z,
    Algorithms.linear_search (fun x : Z => x) [10; 20; 10] 10
      = Returns (Some i) /\
    first_match (fun x : Z => x) 10 [10; 20; 10] i.
Proof.
  assert (Hex : exists x : Z, x ∈ [10; 20; 10] /\ x = 10)
    by (exists 10; split; [apply list_elem_of_here|reflexivity]).
  split; [exact Hex|].
  exact (proj1 (linear_search_first_match (fun x : Z => x) [10; 20; 10] 10) Hex).
Defined.

Lemma binary_search_terminates_witness :
  0 <= 0 /\ 4 < len [1; 3; 5; 7; 9] /\
  exists r,
    Algorithms.binary_search_while (fun x : Z => x) [1; 3; 5; 7; 9] 7 0 4
      = Returns r.
Proof.
  assert (H1 : 0 <= 0) by lia.
  assert (H2 : 4 < len [1; 3; 5; 7; 9]) by (unfold len; simpl; lia).
  split; [exact H1|]. split; [exact H2|].
  exact (proj1 (proj2 (proj2 (binary_search_terminates
                                (fun x : Z => x) [1; 3; 5; 7; 9] 7))
                 0 4 H1 H2)).
Defined.

Lemma merge_sort_never_raises_witness :
  len [7] <= 1 /\ Algorithms.merge_sort (fun x : Z => x) [7] = Returns [7].
Proof.
  assert (Hlen : len [7] <= 1) by (unfold len; simpl; lia).
  split; [exact Hlen|].
  exact (proj1 (proj2 (merge_sort_never_raises (fun x : Z => x) [7])) Hlen).
Defined.

(** [round(x, 2)] reads the exact value of the double: the doubles
    nearest to 0.005, 0.015 and 0.025 are not ties and give 0.01, 0.01
    and 0.03; 0.125 is a double and a tie, and gives 0.12. *)
Example round2_scenario :
  Float.round2 (Float.of_ratio false 5 1000) = Float.of_ratio false 1 100 /\
  Float.round2 (Float.of_ratio false 15 1000) = Float.of_ratio false 1 100 /\
  Float.round2 (Float.of_ratio false 25 1000) = Float.of_ratio false 3 100 /\
  Float.round2 (Float.of_ratio false 125 1000) = Float.of_ratio false 12 100.
Proof. vm_compute. repeat split. Qed.

(** Two runs timed with readings 10 microseconds apart: the first mean
    is the double above 0.005 ms and is reported as 0.01, the second is
    below it and is reported as 0.0. *)
Example benchmark_sort_scenario :
  (Store.benchmark_sort (fun x : Z => x) clock_10us 0%nat 2
     (Store.State {[ 0%nat := [3; 1; 2] ]} 0)).1
  = Returns (<["builtin_sorted_ms" := Float.zero]>
               (<["merge_sort_ms" := Float.of_ratio false 1 100]> ∅)).
Proof. vm_compute. reflexivity. Qed.

(** A number of runs that is not a [Py_ssize_t]. *)
Example benchmark_sort_overflow_scenario :
  Store.benchmark_sort (fun x : Z => x) clock_10us 0%nat (2 ^ 63)
    (Store.State {[ 0%nat := [3; 1; 2] ]} 0)
  = (Raises OverflowError, Store.State {[ 0%nat := [3; 1; 2] ]} 0).
Proof. vm_compute. reflexivity. Qed.

(** The built-in [sorted] keeps elements of equal key in their order. *)
Example sorted_scenario :
  Store.sorted_list (fun p : Z * Z => p.1) [(2, 0); (1, 1); (2, 2)]
  = [(1, 1); (2, 0); (2, 2)].
Proof. reflexivity. Qed.

(** The counter [clock_10us] is a clock in seconds. *)
Lemma clock_10us_readings (i j : nat) :
  (i <= j)%nat -> (j <= 8)%nat ->
  let t := fun k : nat => Float.of_ratio false (Z.of_nat k) 100000 in
  Float.is_finite (t j) = true /\ Float.valid (t j) = true /\
  Float.leb Float.zero (t j) = true /\
  Float.leb (t j) (Float.of_int (2 ^ 62)) = true /\
  Float.leb (t i) (t j) = true.
Proof.
  intros Hij Hj t.
  assert (forall k : nat, (k <= 8)%nat ->
            Float.is_finite (t k) = true /\ Float.valid (t k) = true /\
            Float.leb Float.zero (t k) = true /\
            Float.leb (t k) (Float.of_int (2 ^ 62)) = true) as Hk.
  { intros k Hk.
    do 9 (destruct k as [|k]; [vm_compute; repeat split; reflexivity|]).
    lia. }
  destruct (Hk j Hj) as (H1 & H2 & H3 & H4).
  split; [exact H1|]. split; [exact H2|]. split; [exact H3|].
  split; [exact H4|]. clear Hk H1 H2 H3 H4.
  do 9 (destruct j as [|j];
        [do 9 (destruct i as [|i]; [first [lia|vm_compute; reflexivity]|]);
         lia|]).
  lia.
Qed.

Lemma clock_10us_monotonic : monotonic clock_10us.
Proof.
  split.
  - intros n. unfold clock_10us.
    destruct (clock_10us_readings (n `min` 8) (n `min` 8)) as (? & ? & _);
      [lia..|done].
  - intros n m Hnm. unfold clock_10us.
    destruct (clock_10us_readings (n `min` 8) (m `min` 8))
      as (_ & _ & _ & _ & ?); [lia..|done].
Qed.

Lemma clock_10us_seconds : seconds clock_10us.
Proof.
  intros n. unfold clock_10us.
  destruct (clock_10us_readings (n `min` 8) (n `min` 8))
    as (_ & _ & ? & ? & _); [lia..|done].
Qed.

Lemma benchmark_timings_witness :
  let s := Store.State {[ 0%nat := [3; 1; 2] ]} 0 in
  let ms := fun n : nat =>
    Float.round2
      (Float.mul
         (Float.div (Float.sub (clock_10us (S n)) (clock_10us n))
            (Float.of_int 5))
         (Float.of_int 1000)) in
  monotonic clock_10us /\
  seconds clock_10us /\
  Store.objects s !! 0%nat = Some [3; 1; 2] /\
  [3; 1; 2] <> [] /\
  1 <= 5 /\
  5 <= Store.PY_SSIZE_T_MAX /\
  Store.returns (Store.benchmark_sort (fun x : Z => x) clock_10us 0%nat 5) s
    (fun res _ =>
       res = <["builtin_sorted_ms" := ms 2%nat]>
               (<["merge_sort_ms" := ms 0%nat]> ∅) /\
       dom res = ({["merge_sort_ms"; "builtin_sorted_ms"]} : gset string) /\
       forall name v, res !! name = Some v ->
         Float.is_finite v = true /\ Float.leb Float.zero v = true /\
         Float.two_decimals v) /\
  Store.returns (Store.benchmark_search (fun x : Z => x) clock_10us 0%nat 2 5) s
    (fun res _ =>
       res = <["builtin_in_ms" := ms 4%nat]>
               (<["linear_search_ms" := ms 2%nat]>
                  (<["binary_search_ms" := ms 0%nat]> ∅)) /\
       dom res = ({["binary_search_ms"; "linear_search_ms";
                    "builtin_in_ms"]} : gset string) /\
       forall name v, res !! name = Some v ->
         Float.is_finite v = true /\ Float.leb Float.zero v = true /\
         Float.two_decimals v).
Proof.
  intros s ms.
  assert (Hdata : Store.objects s !! 0%nat = Some [3; 1; 2]) by reflexivity.
  assert (Hne : [3; 1; 2] <> ([] : list Z)) by discriminate.
  assert (Hrep : 1 <= 5) by lia.
  assert (Hmax : 5 <= Store.PY_SSIZE_T_MAX) by (vm_compute; discriminate).
  split; [exact clock_10us_monotonic|]. split; [exact clock_10us_seconds|].
  split; [exact Hdata|]. split; [exact Hne|]. split; [exact Hrep|].
  split; [exact Hmax|].
  exact (proj1 (benchmark_timings (fun x : Z => x) clock_10us 0%nat [3; 1; 2]
                  2 5 s clock_10us_monotonic clock_10us_seconds
                  Hdata Hne Hrep) Hmax).
Defined.

(** The claim C6 as the specification words it asks for strictly
    positive timings.  With a clock that advances 10 microseconds
    between two readings, five runs on [[3, 1, 2]] have a mean of
    0.002 ms, which [round(_, 2)] turns into [0.0]. *)
Lemma benchmark_timing_rounds_to_zero :
  let s := Store.State {[ 0%nat := [3; 1; 2] ]} 0 in
  monotonic clock_10us /\
  seconds clock_10us /\
  (forall n : nat, (n < 8)%nat ->
     Float.ltb (clock_10us n) (clock_10us (S n)) = true) /\
  Store.objects s !! 0%nat = Some [3; 1; 2] /\
  [3; 1; 2] <> ([] : list Z) /\
  1 <= 5 <= Store.PY_SSIZE_T_MAX /\
  (exists s',
     Store.benchmark_sort (fun x : Z => x) clock_10us 0%nat 5 s
       = (Returns (<["builtin_sorted_ms" := Float.zero]>
                    (<["merge_sort_ms" := Float.zero]> ∅)), s')) /\
  ~ Store.returns (Store.benchmark_sort (fun x : Z => x) clock_10us 0%nat 5) s
      (fun res _ =>
         forall name v, res !! name = Some v ->
           Float.ltb Float.zero v = true).
Proof.
  intros s.
  assert (Hrun : exists s',
     Store.benchmark_sort (fun x : Z => x) clock_10us 0%nat 5 s
       = (Returns (<["builtin_sorted_ms" := Float.zero]>
                    (<["merge_sort_ms" := Float.zero]> ∅)), s'))
    by (eexists; vm_compute; reflexivity).
  split; [exact clock_10us_monotonic|]. split; [exact clock_10us_seconds|].
  split.
  { intros n Hn.
    do 8 (destruct n as [|n]; [vm_compute; reflexivity|]). lia. }
  split; [reflexivity|]. split; [discriminate|].
  split; [split; [lia|vm_compute; discriminate]|].
  split; [exact Hrun|].
  intros (res & s1 & Hres & Hpos). destruct Hrun as [s' Hrun].
  rewrite Hrun in Hres. injection Hres as <- _.
  specialize (Hpos "merge_sort_ms" Float.zero eq_refl). discriminate Hpos.
Qed.

Lemma input_list_never_mutated_witness :
  let s := Store.State {[ 0%nat := [3; 1; 2] ]} 0 in
  Store.objects s !! 0%nat = Some [3; 1; 2] /\
  Store.returns (Store.insertion_sort (fun x : Z => x) 0%nat) s
    (fun r s' =>
       Store.unchanged s s' /\
       Store.objects s' !! 0%nat = Some [3; 1; 2] /\ r <> 0%nat).
Proof.
  intros s.
  assert (Hdata : Store.objects s !! 0%nat = Some [3; 1; 2]) by reflexivity.
  split; [exact Hdata|].
  exact (proj1 (proj2 (input_list_never_mutated (fun x : Z => x) clock_10us
                         0%nat [3; 1; 2] 2 5 s Hdata))).
Defined.


Lemma sort_permutation_non_descending_witness :
  (exists out,
      Algorithms.merge_sort (fun x : Z => x) [5; 3; 1; 4; 2] = Returns out /\
      out ≡ₚ [5; 3; 1; 4; 2] /\ length out = length [5; 3; 1; 4; 2] /\
      non_descending (fun x : Z => x) out) /\
  (exists out,
      Algorithms.insertion_sort (fun x : Z => x) [5; 3; 1; 4; 2] = Returns out /\
      out ≡ₚ [5; 3; 1; 4; 2] /\ length out = length [5; 3; 1; 4; 2] /\
      non_descending (fun x : Z => x) out).
Proof.
  exact (sort_permutation_non_descending (fun x : Z => x) [5; 3; 1; 4; 2]).
Defined.

Lemma sort_idempotent_witness :
  (exists out,
      Algorithms.merge_sort (fun p : Z * Z => p.1) [(2, 0); (1, 1); (2, 2)]
        = Returns out /\
      Algorithms.merge_sort (fun p : Z * Z => p.1) out = Returns out) /\
  (exists out,
      Algorithms.insertion_sort (fun p : Z * Z => p.1) [(2, 0); (1, 1); (2, 2)]
        = Returns out /\
      Algorithms.insertion_sort (fun p : Z * Z => p.1) out = Returns out).
Proof.
  exact (sort_idempotent (fun p : Z * Z => p.1) [(2, 0); (1, 1); (2, 2)]).
Defined.

Lemma merge_sort_insertion_sort_agree_witness :
  Algorithms.merge_sort (fun p : Z * Z => p.1) [(2, 0); (1, 1); (2, 2); (1, 3)]
  = Algorithms.insertion_sort (fun p : Z * Z => p.1)
      [(2, 0); (1, 1); (2, 2); (1, 3)].
Proof.
  exact (merge_sort_insertion_sort_agree (fun p : Z * Z => p.1)
           [(2, 0); (1, 1); (2, 2); (1, 3)]).
Defined.

(** * Further properties of the searches *)

Section SearchProperties.
Context {T K : Type} `{PyOrd K}.
Variable key : T -> K.
Import Algorithms.

(** Both searches return, and what they return is tied to the elements
    that hold the target key. *)
Lemma searches_return (data : list T) (target : K) :
  exists b l,
    binary_search key data target = Returns b /\
    linear_search key data target = Returns l /\
    (forall i, b = Some i ->
       0 <= i < len data /\
       exists x, data !! Z.to_nat i = Some x /\ key x = target) /\
    (forall j, l = Some j -> first_match key target data j) /\
    (l = None -> forall x, x ∈ data -> key x <> target).
Proof.
  pose proof (len_nonneg data) as Hlen.
  destruct (binary_search_while_returns key data target 0 (len data - 1))
    as (b & Hb & Hin); [lia|lia|].
  pose proof (linear_search_for_spec key data target 0) as Hspec.
  simpl in Hspec. unfold linear_search, enumerate.
  destruct (linear_search_for key _ target) as [l|]; [|done].
  exists b, l. split; [exact Hb|]. split; [done|]. split; [|split].
  - intros i Hi. destruct (Hin i Hi) as [Hrange Hx]. split; [lia|done].
  - intros j ->. destruct Hspec as (p & y & -> & Hy & Hk & Hfirst).
    unfold first_match. rewrite Nat2Z.id.
    split; [lia|]. split; [by exists y|done].
  - by intros ->.
Qed.

(** X1. Without the precondition that the list is sorted,
    [binary_search] still returns and never gives a wrong index: an
    index it returns is inside the list and holds the target key.  What
    it can do on an unsorted list is miss a key that is there, as on
    [[5, 1, 3]] with target 5, which [linear_search] finds at 0. *)
Theorem binary_search_sound_unsorted (data : list T) (target : K) :
  (exists r,
      binary_search key data target = Returns r /\
      forall i, r = Some i ->
        0 <= i < len data /\
        exists x, data !! Z.to_nat i = Some x /\ key x = target) /\
  binary_search (fun x : Z => x) [5; 1; 3] 5 = Returns None /\
  linear_search (fun x : Z => x) [5; 1; 3] 5 = Returns (Some 0).
Proof.
  split; [|split; reflexivity].
  destruct (searches_return data target) as (b & l & Hb & _ & Hin & _).
  by exists b.
Qed.

(** On a sorted list the two searches find the same targets, the linear
    one at the first match. *)
Lemma sorted_searches (data : list T) (target : K) :
  non_descending key data ->
  exists b l,
    binary_search key data target = Returns b /\
    linear_search key data target = Returns l /\
    (is_Some b <-> is_Some l) /\
    (forall i, b = Some i ->
       0 <= i /\ exists x, data !! Z.to_nat i = Some x /\ key x = target) /\
    (forall j, l = Some j -> first_match key target data j) /\
    forall i j, b = Some i -> l = Some j -> j <= i.
Proof.
  intros Hnd. pose proof (len_nonneg data) as Hlen.
  destruct (searches_return data target)
    as (b & l & Hb & Hl & Hbin & Hlin & Hnone).
  exists b, l. split; [done|]. split; [done|].
  split; [split|split; [|split; [done|]]].
  - intros [i ->]. destruct (Hbin i eq_refl) as (_ & x & Hx & Hk).
    destruct l as [j|]; [by eexists|].
    exfalso. apply (Hnone eq_refl x); [|done].
    apply list_elem_of_lookup. by eexists.
  - intros [j ->]. destruct (Hlin j eq_refl) as (Hj & (x & Hx & Hk) & _).
    apply lookup_lt_Some in Hx as Hlt.
    destruct (binary_search_while_finds key data target 0 (len data - 1))
      as [i Hi]; [by apply sorted_non_descending|lia|lia| |].
    { exists (Z.to_nat j), x. unfold len. split; [lia|done]. }
    unfold binary_search in Hb. simpl in Hb. rewrite Hi in Hb.
    injection Hb as <-. by eexists.
  - intros i Hi. destruct (Hbin i Hi) as [? ?]. split; [lia|done].
  - intros i j -> ->. destruct (Hbin i eq_refl) as (Hi & x & Hx & Hk).
    destruct (Hlin j eq_refl) as (Hj & _ & Hfirst).
    destruct (decide (j <= i)) as [|Hlt]; [done|].
    exfalso. apply (Hfirst (Z.to_nat i) x); [lia|done..].
Qed.

(** X2. On a list sorted by key the two searches agree on presence:
    [binary_search] finds the target exactly when [linear_search] does,
    and the index [linear_search] gives, the first match, is never after
    the one [binary_search] gives. *)
Theorem searches_agree_on_sorted (data : list T) (target : K) :
  non_descending key data ->
  exists b l,
    binary_search key data target = Returns b /\
    linear_search key data target = Returns l /\
    (is_Some b <-> is_Some l) /\
    forall i j, b = Some i -> l = Some j -> j <= i.
Proof.
  intros Hnd.
  destruct (sorted_searches data target Hnd)
    as (b & l & Hb & Hl & Hpres & _ & _ & Hle).
  by exists b, l.
Qed.

(** X3. On a sorted list whose keys are pairwise distinct the two
    searches return the same result, index included. *)
Theorem searches_equal_on_distinct_keys (data : list T) (target : K) :
  non_descending key data ->
  NoDup (key <$> data) ->
  binary_search key data target = linear_search key data target.
Proof.
  intros Hnd Hdup.
  destruct (sorted_searches data target Hnd)
    as (b & l & -> & -> & Hpres & Hbin & Hlin & _).
  f_equal. destruct b as [i|], l as [j|].
  - destruct (Hbin i eq_refl) as (Hi & x & Hx & Hkx).
    destruct (Hlin j eq_refl) as (Hj & (y & Hy & Hky) & _).
    assert (Z.to_nat i = Z.to_nat j) as Hij.
    { apply (NoDup_lookup (key <$> data) _ _ target Hdup);
        rewrite list_lookup_fmap; [by rewrite Hx; simpl; f_equal
                                  |by rewrite Hy; simpl; f_equal]. }
    f_equal. lia.
  - destruct (proj1 Hpres) as [? [=]]. by eexists.
  - destruct (proj2 Hpres) as [? [=]]. by eexists.
  - done.
Qed.

(** X4. Sorting first and then searching with [binary_search] decides
    membership on any list: the target is found in [merge_sort(data)]
    exactly when some element of [data] has that key, which is exactly
    when [linear_search] finds it in [data] itself. *)
Theorem sort_then_binary_search_decides (data : list T) (target : K) :
  exists out b l,
    merge_sort key data = Returns out /\
    binary_search key out target = Returns b /\
    linear_search key data target = Returns l /\
    (is_Some b <-> exists x, x ∈ data /\ key x = target) /\
    (is_Some b <-> is_Some l).
Proof.
  destruct (merge_sort_spec key data) as (out & Hout & Hperm & Hs & _).
  destruct (sorted_searches out target) as (b & l' & Hb & _ & _ & Hbin & _);
    [by apply sorted_non_descending|].
  destruct (searches_return data target)
    as (b0 & l & _ & Hl & _ & Hlin & Hnone).
  assert (is_Some b <-> exists x, x ∈ data /\ key x = target) as Hmem.
  { split.
    - intros [i ->]. destruct (Hbin i eq_refl) as (_ & x & Hx & Hk).
      exists x. split; [|done]. rewrite <- Hperm.
      apply list_elem_of_lookup. by eexists.
    - intros (x & Hx & Hk). rewrite <- Hperm in Hx.
      apply list_elem_of_lookup in Hx as [p Hp].
      apply lookup_lt_Some in Hp as Hlt. pose proof (len_nonneg out).
      destruct (binary_search_while_finds key out target 0 (len out - 1))
        as [i Hi]; [done|lia|lia| |].
      { exists p, x. unfold len. split; [lia|done]. }
      unfold binary_search in Hb. simpl in Hb. rewrite Hi in Hb.
      injection Hb as <-. by eexists. }
  exists out, b, l. split; [done|]. split; [done|]. split; [done|].
  split; [done|]. rewrite Hmem. split.
  - intros (x & Hx & Hk). destruct l as [j|]; [by eexists|].
    by destruct (Hnone eq_refl x Hx).
  - intros [j ->]. destruct (Hlin j eq_refl) as (_ & (x & Hx & Hk) & _).
    exists x. split; [|done]. apply list_elem_of_lookup. by eexists.
Qed.
End SearchProperties.

(** * Further properties of the sorts *)

Section SortProperties.
Context {T K : Type} `{PyOrd K}.
Variable key : T -> K.
Import Algorithms.

Local Abbreviation sorted := (StronglySorted (key_le key)).

(** The order of the keys themselves. *)
Local Abbreviation le_keys := (key_le (fun k : K => k)).

#[local] Instance le_keys_antisym : AntiSymm (=) le_keys.
Proof. intros a b. unfold key_le. apply py_le_antisym. Qed.

Lemma sorted_keys (l : list T) :
  sorted l -> StronglySorted le_keys (key <$> l).
Proof. apply StronglySorted_fmap. by intros x y. Qed.

Lemma same_key_same_element (l : list T) (x y : T) :
  NoDup (key <$> l) -> x ∈ l -> y ∈ l -> key x = key y -> x = y.
Proof.
  intros Hdup [i Hi]%list_elem_of_lookup [j Hj]%list_elem_of_lookup Hk.
  assert (i = j) as ->; [|congruence].
  apply (NoDup_lookup (key <$> l) _ _ (key x) Hdup);
    rewrite list_lookup_fmap; [by rewrite Hi|by rewrite Hj, Hk].
Qed.

(** X5. A list that is already in non-descending order of its keys is
    returned as it is, element for element, by both sorts. *)
Theorem sorted_input_is_returned (data : list T) :
  non_descending key data ->
  merge_sort key data = Returns data /\
  insertion_sort key data = Returns data.
Proof.
  intros Hnd%sorted_non_descending. split.
  - destruct (merge_sort_spec key data) as (out & -> & _ & Hs & Hst).
    f_equal. apply (sorted_stable_unique key); [done..|].
    intros k. by rewrite Hst.
  - destruct (insertion_sort_spec key data) as (out & -> & _ & Hs & Hst).
    f_equal. apply (sorted_stable_unique key); [done..|].
    intros k. by rewrite Hst.
Qed.

(** X6. The keys of the output depend only on which elements the input
    holds, not on their order: two inputs that are permutations of one
    another are sorted into lists with the same sequence of keys, and
    into the same list when the keys are pairwise distinct. *)
Theorem sort_of_permutation (data data' : list T) :
  data ≡ₚ data' ->
  exists out out',
    merge_sort key data = Returns out /\
    merge_sort key data' = Returns out' /\
    key <$> out = key <$> out' /\
    (NoDup (key <$> data) -> out = out').
Proof.
  intros Hperm.
  destruct (merge_sort_spec key data) as (out & Hout & Hp & Hs & _).
  destruct (merge_sort_spec key data') as (out' & Hout' & Hp' & Hs' & _).
  exists out, out'. split; [done|]. split; [done|]. split.
  - apply (StronglySorted_unique le_keys); [by apply sorted_keys..|].
    by rewrite Hp, Hp', Hperm.
  - intros Hdup. apply (StronglySorted_unique_strong (key_le key));
      [|done|done|by rewrite Hp, Hp', Hperm].
    intros x1 x2 Hx1 Hx2 H12 H21.
    apply (same_key_same_element data); [done| | |by apply py_le_antisym].
    + by rewrite <- Hp.
    + by rewrite Hperm, <- Hp'.
Qed.

(** X7. Sorting by a key and then reading the keys gives the same list
    as reading the keys first and sorting them with the identity key. *)
Theorem sort_commutes_with_key (data : list T) :
  exists out keys,
    merge_sort key data = Returns out /\
    merge_sort (fun k : K => k) (key <$> data) = Returns keys /\
    key <$> out = keys.
Proof.
  destruct (merge_sort_spec key data) as (out & Hout & Hp & Hs & _).
  destruct (merge_sort_spec (fun k : K => k) (key <$> data))
    as (keys & Hkeys & Hpk & Hsk & _).
  exists out, keys. split; [done|]. split; [done|].
  apply (StronglySorted_unique le_keys); [by apply sorted_keys|done|].
  by rewrite Hp, Hpk.
Qed.

(** X8. [_merge] works on any two lists: it returns, and its result has
    the elements of [left] and of [right], so its length is the sum of
    theirs; with one list empty it is the other list; and when both lists
    are in non-descending order of their keys so is the result, the
    elements of [left] standing before those of [right] of equal key. *)
Theorem _merge_correct (left right : list T) :
  (exists out,
      _merge key left right = Returns out /\
      out ≡ₚ left ++ right /\
      length out = (length left + length right)%nat /\
      (non_descending key left -> non_descending key right ->
       non_descending key out /\
       forall k, with_key key k out
                 = with_key key k left ++ with_key key k right)) /\
  _merge key [] right = Returns right /\
  _merge key left [] = Returns left.
Proof.
  rewrite !_merge_list_merge. split; [|split].
  - eexists. split; [done|]. split; [apply merge_Permutation|]. split.
    + by rewrite merge_Permutation, length_app.
    + intros Hl%sorted_non_descending Hr%sorted_non_descending. split.
      * by apply sorted_non_descending, sorted_list_merge.
      * intros k. by apply with_key_list_merge.
  - by rewrite list_merge_nil_l.
  - by rewrite list_merge_nil_r.
Qed.
End SortProperties.

(** * The invariant of the insertion loop *)

Section InsertionInvariant.
Context {T K : Type} `{PyOrd K}.
Variable key : T -> K.
Import Algorithms.

Local Abbreviation sorted := (StronglySorted (key_le key)).

(** The passes for the elements [rest1], entered with the sorted prefix
    [P], leave the elements [rest2] behind them where they are. *)
Lemma insertion_sort_for_prefix (rest1 : list T) :
  forall P rest2 : list T,
    sorted P ->
    exists P',
      insertion_sort_for key (P ++ rest1 ++ rest2) (seqZ (len P) (len rest1))
        = Returns (P' ++ rest2) /\
      P' ≡ₚ P ++ rest1 /\ sorted P' /\ stable key (P ++ rest1) P'.
Proof.
  induction rest1 as [|c rest1 IH]; intros P rest2 Hs.
  - exists P. rewrite app_nil_r. by repeat split.
  - rewrite seqZ_cons by (unfold len; simpl; lia). simpl.
    destruct (insertion_sort_body_spec key P c (rest1 ++ rest2))
      as (A1 & A2 & -> & -> & Hgt & Hlast).
    cbn. destruct (IH (A1 ++ c :: A2) rest2) as (P' & HP' & Hperm & Hso & Hst).
    { by apply insert_sorted. }
    exists P'. split; [|split; [|split]].
    + rewrite <- HP'. f_equal. f_equal.
      * rewrite !len_app. unfold len. simpl. lia.
      * unfold len. simpl. lia.
    + rewrite Hperm. rewrite <- !app_assoc. simpl.
      by rewrite Permutation_middle.
    + done.
    + intros k. rewrite Hst.
      rewrite (with_key_app key k (A1 ++ c :: A2) rest1),
        (insert_stable key) by done.
      change (c :: rest1) with ([c] ++ rest1).
      by rewrite !with_key_app, <- !app_assoc.
Qed.

(** X9. The invariant of [insertion_sort]'s [for] loop: after the passes
    for the positions 1 to [k - 1] the first [k] elements of the array
    are the first [k] elements of the input in non-descending order of
    their keys, equal keys in their input order, and the elements from
    position [k] on have not moved. *)
Theorem insertion_sort_loop_invariant (data : list T) (k : nat) :
  (k <= length data)%nat ->
  exists P,
    insertion_sort_for key data (range 1 (Z.of_nat k))
      = Returns (P ++ drop k data) /\
    P ≡ₚ take k data /\
    non_descending key P /\
    stable key (take k data) P.
Proof.
  intros Hk. unfold range. destruct k as [|k].
  - exists []. split; [done|]. split; [done|].
    split; [by apply sorted_non_descending; constructor|done].
  - destruct data as [|x rest]; [simpl in Hk; lia|]. simpl in Hk.
    destruct (insertion_sort_for_prefix (take k rest) [x] (drop k rest))
      as (P & HP & Hperm & Hs & Hst); [repeat constructor|].
    exists P. simpl. split; [|split; [done|split]].
    + rewrite take_drop in HP. rewrite <- HP. f_equal.
      unfold len. rewrite length_take. simpl. f_equal. lia.
    + by apply sorted_non_descending.
    + done.
Qed.
End InsertionInvariant.

(** * How many passes the loops make *)

(** A loop of the store model uses one unit of its budget for each test
    of its condition, and a recursive function one unit for each nested
    call; a run that returns with budget [n] made at most [n] of them. *)

Section StoreBounds.
Context {T K : Type} `{PyOrd K}.
Variable key : T -> K.
Import Store.

Implicit Types (s : state (T:=T)) (r : ref).

Lemma midpoint_halves (low high : Z) :
  2 * ((low + high) / 2) <= low + high <= 2 * ((low + high) / 2) + 1.
Proof.
  pose proof (Z.div_mod (low + high) 2 ltac:(lia)) as Hdm.
  pose proof (Z.mod_pos_bound (low + high) 2 ltac:(lia)) as Hmod. lia.
Qed.



(** A list of at most [2 ^ k] elements is sorted within [k + 1] nested
    calls. *)
Lemma returns_merge_sort_rec_depth (k : nat) :
  forall (data : ref) (xs out : list T) s (Q : ref -> state -> Prop),
    objects s !! data = Some xs ->
    len xs <= 2 ^ Z.of_nat k ->
    Algorithms.merge_sort key xs = Returns out ->
    (forall r s',
        objects s !! r = None -> unchanged s s' -> ticks s' = ticks s ->
        objects s' !! r = Some out -> Q r s') ->
    returns (merge_sort_rec key (S k) data) s Q.
Proof.
  induction k as [|k IH]; intros data xs out s Q Hxs Hk Hval HQ;
    rewrite Algorithms.merge_sort_equation_1 in Hval;
    cbn [merge_sort_rec];
    (apply returns_bind, (returns_py_len data xs); [done|]).
  - change (2 ^ Z.of_nat 0) with 1 in Hk.
    destruct (decide (len xs <= 1)) as [Hshort|Hlong]; [|lia].
    injection Hval as <-. apply (returns_py_list data xs); [done|].
    intros r Hr. apply HQ; [done| |done|by apply lookup_write_eq].
    apply unchanged_write; [done|apply unchanged_refl].
  - destruct (decide (len xs <= 1)) as [Hshort|Hlong].
    + injection Hval as <-. apply (returns_py_list data xs); [done|].
      intros r Hr. apply HQ; [done| |done|by apply lookup_write_eq].
      apply unchanged_write; [done|apply unchanged_refl].
    + cbv zeta in Hval |- *.
      rewrite Nat2Z.inj_succ, Z.pow_succ_r in Hk by lia.
      pose proof (midpoint_halves 0 (len xs)) as Hmid.
      rewrite Z.add_0_l in Hmid.
      set (mid := len xs / 2) in *.
      assert (0 < mid < len xs) as Hmid'
        by (subst mid; split; [apply Z.div_str_pos | apply Z.div_lt]; lia).
      destruct (Algorithms.merge_sort key (slice_to xs mid)) as [L|] eqn:HL;
        [|done].
      destruct (Algorithms.merge_sort key (slice_from xs mid)) as [R|] eqn:HR;
        [|done].
      cbn in Hval.
      apply returns_bind, (returns_py_slice_to data xs); [done|].
      intros h1 Hh1. set (s1 := write h1 _ s).
      assert (unchanged s s1) as Hs1
        by (apply unchanged_write; [done|apply unchanged_refl]).
      apply returns_bind, (IH h1 (slice_to xs mid) L);
        [by apply lookup_write_eq| |done|].
      { unfold len. rewrite slice_to_take, length_take by lia.
        unfold len in Hmid', Hmid, Hk.
        lia. }
      intros left s2 Hleft Hs2 Ht2 HleftL.
      apply returns_bind, (returns_py_slice_from data xs);
        [by apply Hs2, Hs1|]. intros h2 Hh2.
      set (s3 := write h2 _ s2).
      assert (unchanged s2 s3) as Hs3
        by (apply unchanged_write; [done|apply unchanged_refl]).
      apply returns_bind, (IH h2 (slice_from xs mid) R);
        [by apply lookup_write_eq| |done|].
      { unfold len. rewrite slice_from_drop, length_drop by lia.
        unfold len in Hmid', Hmid, Hk. lia. }
      intros right s4 Hright Hs4 Ht4 HrightR.
      apply (returns__merge key left right L R out);
        [by apply Hs4, Hs3|done|done|].
      intros r s5 Hr Hs5 Ht5 Hout.
      apply HQ; [| |by rewrite Ht5, Ht4; unfold s3; rewrite ticks_write, Ht2
                |done].
      * apply (unchanged_None s s4); [|done]. eauto using unchanged_trans.
      * eauto using unchanged_trans.
Qed.

(** X11. The recursion of [merge_sort] on a list of [n] elements is at
    most [ceil(log2 n) + 1] calls deep: run with that many nested calls
    allowed it returns, a new list object with the sorted elements, the
    objects that were there left as they were. *)
Theorem merge_sort_recursion_depth (data : ref) (xs : list T) (s : state) :
  objects s !! data = Some xs ->
  returns
    (merge_sort_rec key (Z.to_nat (Z.log2_up (len xs)) + 1) data) s
    (fun r s' =>
       objects s !! r = None /\ unchanged s s' /\
       exists out,
         Algorithms.merge_sort key xs = Returns out /\
         objects s' !! r = Some out).
Proof.
  intros Hxs. pose proof (len_nonneg xs) as Hlen.
  destruct (merge_sort_spec key xs) as (out & Hout & _).
  replace (Z.to_nat (Z.log2_up (len xs)) + 1)%nat
    with (S (Z.to_nat (Z.log2_up (len xs)))) by lia.
  apply (returns_merge_sort_rec_depth _ data xs out); [done| |done|].
  - pose proof (Z.log2_up_nonneg (len xs)) as Hlog.
    rewrite Z2Nat.id by done.
    destruct (decide (len xs <= 1)) as [Hshort|Hlong].
    + pose proof (Z.pow_pos_nonneg 2 (Z.log2_up (len xs)) ltac:(lia) Hlog). lia.
    + pose proof (Z.log2_up_spec (len xs) ltac:(lia)). lia.
  - intros r s' Hr Hs' _ Hr'. split; [done|]. split; [done|]. by exists out.
Qed.
End StoreBounds.

(** * The benchmarks and the timer *)

Section BenchmarkProperties.
Context {T K : Type} `{PyOrd K}.
Variable key : T -> K.
Variable timer : nat -> Float.float.
Import Store.

Implicit Types (s : state (T:=T)) (r : ref).

End BenchmarkProperties.

Section BenchmarkReadings.
Context {T K : Type} `{PyOrd K}.
Variable key : T -> K.
Variable timer : nat -> Float.float.
Import Store.

Implicit Types (s : state (T:=T)) (r : ref).

(** X13. What the benchmarks measure.  For a list object [data] and a
    [repeats <> 0] that is a [Py_ssize_t], [benchmark_sort] reads the
    timer four times and [benchmark_search] six times; each metric is
    the difference of two consecutive readings, divided by [repeats],
    times [1000], rounded to two decimals, each step in double
    arithmetic; the timed calls themselves never read the timer.  For a
    [repeats] that is not a [Py_ssize_t] both raise [OverflowError]
    and the timer is not read at all. *)
Theorem benchmark_readings (data : ref) (xs : list T) (target : K)
    (repeats : Z) (s : state) :
  objects s !! data = Some xs ->
  repeats <> 0 ->
  let ms := fun n : nat =>
    Float.round2
      (Float.mul
         (Float.div (Float.sub (timer (S n + ticks s)) (timer (n + ticks s)))
            (Float.of_int repeats))
         (Float.of_int 1000)) in
  (- PY_SSIZE_T_MAX - 1 <= repeats <= PY_SSIZE_T_MAX ->
   returns (benchmark_sort key timer data repeats) s
     (fun res s' =>
        res = <["builtin_sorted_ms" := ms 2%nat]>
                (<["merge_sort_ms" := ms 0%nat]> ∅) /\
        ticks s' = (4 + ticks s)%nat) /\
   returns (benchmark_search key timer data target repeats) s
     (fun res s' =>
        res = <["builtin_in_ms" := ms 4%nat]>
                (<["linear_search_ms" := ms 2%nat]>
                   (<["binary_search_ms" := ms 0%nat]> ∅)) /\
        ticks s' = (6 + ticks s)%nat)) /\
  (~ (- PY_SSIZE_T_MAX - 1 <= repeats <= PY_SSIZE_T_MAX) ->
   benchmark_sort key timer data repeats s = (Raises OverflowError, s) /\
   benchmark_search key timer data target repeats s
     = (Raises OverflowError, s)).
Proof.
  intros Hxs Hne ms. split.
  - intros Hn. split.
    + by apply (returns_benchmark_sort key timer data xs).
    + by apply (returns_benchmark_search key timer data xs).
  - intros Hn. split.
    + by apply benchmark_sort_overflow.
    + by apply benchmark_search_overflow.
Qed.
End BenchmarkReadings.

(** * The best case of insertion sort, and the searches the benchmark times *)

Section BestCase.
Context {T K : Type} `{PyOrd K}.
Variable key : T -> K.
Import Algorithms.

(** X14. On an input already in non-descending order of its keys a pass
    of [insertion_sort] moves nothing: the inner loop stops at its first
    test, with the array as it was, and the pass leaves the array as it
    was.  This is the linear best case. *)
Theorem insertion_sort_pass_on_sorted (data : list T) (i : nat) (c : T) :
  non_descending key data ->
  (1 <= i)%nat ->
  data !! i = Some c ->
  insertion_sort_while key (key c) data (Z.of_nat i - 1)
    = Returns (data, Z.of_nat i - 1) /\
  insertion_sort_body key data (Z.of_nat i) = Returns data.
Proof.
  intros Hnd Hi Hc. apply lookup_lt_Some in Hc as Hlt.
  destruct (lookup_lt_is_Some_2 data (i - 1)) as [a Ha]; [lia|].
  assert (py_gt (key a) (key c) = false) as Hgt.
  { rewrite py_gt_spec. apply Bool.negb_false_iff.
    apply (Hnd (i - 1)%nat i a c); [lia|done..]. }
  assert (insertion_sort_while key (key c) data (Z.of_nat i - 1)
          = Returns (data, Z.of_nat i - 1)) as Hwhile.
  { rewrite insertion_sort_while_equation_1, decide_True by lia.
    rewrite (getitem_Returns data (Z.of_nat i - 1) a) by
      (try lia; by replace (Z.to_nat (Z.of_nat i - 1)) with (i - 1)%nat by lia).
    cbn. by rewrite Hgt. }
  split; [done|]. unfold insertion_sort_body.
  rewrite (getitem_Returns data (Z.of_nat i) c)
    by (try lia; by rewrite Nat2Z.id).
  cbn. rewrite Hwhile. cbn.
  rewrite setitem_in_range by (unfold len; lia).
  f_equal. replace (Z.to_nat (Z.of_nat i - 1 + 1)) with i by lia.
  by apply list_insert_id.
Qed.
End BestCase.

Section TimedSearches.
Context {T K : Type} `{PyOrd K}.
Variable key : T -> K.
Import Store.

Implicit Types (s : state (T:=T)) (r : ref).


End TimedSearches.

(** * The further properties at concrete inputs *)

Lemma searches_agree_on_sorted_witness :
  non_descending (fun x : Z => x) [1; 3; 3; 7] /\
  exists b l,
    Algorithms.binary_search (fun x : Z => x) [1; 3; 3; 7] 3 = Returns b /\
    Algorithms.linear_search (fun x : Z => x) [1; 3; 3; 7] 3 = Returns l /\
    (is_Some b <-> is_Some l) /\
    forall i j, b = Some i -> l = Some j -> j <= i.
Proof.
  assert (Hs : non_descending (fun x : Z => x) [1; 3; 3; 7])
    by (apply is_sorted_spec; reflexivity).
  split; [exact Hs|].
  exact (searches_agree_on_sorted (fun x : Z => x) [1; 3; 3; 7] 3 Hs).
Defined.

Lemma searches_equal_on_distinct_keys_witness :
  non_descending (fun x : Z => x) [1; 3; 5; 7; 9] /\
  NoDup ((fun x : Z => x) <$> [1; 3; 5; 7; 9]) /\
  Algorithms.binary_search (fun x : Z => x) [1; 3; 5; 7; 9] 7
  = Algorithms.linear_search (fun x : Z => x) [1; 3; 5; 7; 9] 7.
Proof.
  assert (Hs : non_descending (fun x : Z => x) [1; 3; 5; 7; 9])
    by (apply is_sorted_spec; reflexivity).
  assert (Hd : NoDup ((fun x : Z => x) <$> [1; 3; 5; 7; 9]))
    by (apply (bool_decide_unpack _); vm_compute; exact I).
  split; [exact Hs|]. split; [exact Hd|].
  exact (searches_equal_on_distinct_keys (fun x : Z => x) [1; 3; 5; 7; 9] 7
           Hs Hd).
Defined.

Lemma sorted_input_is_returned_witness :
  non_descending (fun p : Z * Z => p.1) [(1, 0); (2, 1); (2, 2)] /\
  Algorithms.merge_sort (fun p : Z * Z => p.1) [(1, 0); (2, 1); (2, 2)]
    = Returns [(1, 0); (2, 1); (2, 2)] /\
  Algorithms.insertion_sort (fun p : Z * Z => p.1) [(1, 0); (2, 1); (2, 2)]
    = Returns [(1, 0); (2, 1); (2, 2)].
Proof.
  assert (Hs : non_descending (fun p : Z * Z => p.1) [(1, 0); (2, 1); (2, 2)])
    by (apply is_sorted_spec; reflexivity).
  split; [exact Hs|].
  exact (sorted_input_is_returned (fun p : Z * Z => p.1)
           [(1, 0); (2, 1); (2, 2)] Hs).
Defined.

Lemma sort_of_permutation_witness :
  [2; 1; 3] ≡ₚ [1; 2; 3] /\
  exists out out',
    Algorithms.merge_sort (fun x : Z => x) [2; 1; 3] = Returns out /\
    Algorithms.merge_sort (fun x : Z => x) [1; 2; 3] = Returns out' /\
    (fun x : Z => x) <$> out = (fun x : Z => x) <$> out' /\
    (NoDup ((fun x : Z => x) <$> [2; 1; 3]) -> out = out').
Proof.
  assert (Hp : [2; 1; 3] ≡ₚ [1; 2; 3]) by apply perm_swap.
  split; [exact Hp|].
  exact (sort_of_permutation (fun x : Z => x) [2; 1; 3] [1; 2; 3] Hp).
Defined.

Lemma _merge_correct_witness :
  exists out,
    Algorithms._merge (fun x : Z => x) [1; 4] [2; 3] = Returns out /\
    out ≡ₚ [1; 4] ++ [2; 3] /\
    length out = (length [1; 4] + length [2; 3])%nat /\
    (non_descending (fun x : Z => x) [1; 4] ->
     non_descending (fun x : Z => x) [2; 3] ->
     non_descending (fun x : Z => x) out /\
     forall k, with_key (fun x : Z => x) k out
               = with_key (fun x : Z => x) k [1; 4]
                 ++ with_key (fun x : Z => x) k [2; 3]).
Proof.
  exact (proj1 (_merge_correct (fun x : Z => x) [1; 4] [2; 3])).
Defined.

Lemma insertion_sort_loop_invariant_witness :
  (2 <= length [3; 1; 2])%nat /\
  exists P,
    Algorithms.insertion_sort_for (fun x : Z => x) [3; 1; 2]
      (range 1 (Z.of_nat 2))
      = Returns (P ++ drop 2 [3; 1; 2]) /\
    P ≡ₚ take 2 [3; 1; 2] /\
    non_descending (fun x : Z => x) P /\
    stable (fun x : Z => x) (take 2 [3; 1; 2]) P.
Proof.
  assert (Hk : (2 <= length [3; 1; 2])%nat) by (simpl; lia).
  split; [exact Hk|].
  exact (insertion_sort_loop_invariant (fun x : Z => x) [3; 1; 2] 2 Hk).
Defined.


Lemma merge_sort_recursion_depth_witness :
  let s := Store.State {[ 0%nat := [5; 3; 1; 4; 2] ]} 0 in
  Store.objects s !! 0%nat = Some [5; 3; 1; 4; 2] /\
  Store.returns
    (Store.merge_sort_rec (fun x : Z => x)
       (Z.to_nat (Z.log2_up (len [5; 3; 1; 4; 2])) + 1) 0%nat) s
    (fun r s' =>
       Store.objects s !! r = None /\ Store.unchanged s s' /\
       exists out,
         Algorithms.merge_sort (fun x : Z => x) [5; 3; 1; 4; 2] = Returns out /\
         Store.objects s' !! r = Some out).
Proof.
  intros s.
  assert (Hdata : Store.objects s !! 0%nat = Some [5; 3; 1; 4; 2])
    by reflexivity.
  split; [exact Hdata|].
  exact (merge_sort_recursion_depth (fun x : Z => x) 0%nat [5; 3; 1; 4; 2]
           s Hdata).
Defined.


Lemma benchmark_readings_witness :
  let s := Store.State {[ 0%nat := [3; 1; 2] ]} 0 in
  let ms := fun n : nat =>
    Float.round2
      (Float.mul
         (Float.div (Float.sub (clock_10us (S n)) (clock_10us n))
            (Float.of_int 2))
         (Float.of_int 1000)) in
  Store.objects s !! 0%nat = Some [3; 1; 2] /\
  2 <> 0 /\
  - Store.PY_SSIZE_T_MAX - 1 <= 2 <= Store.PY_SSIZE_T_MAX /\
  Store.returns (Store.benchmark_sort (fun x : Z => x) clock_10us 0%nat 2) s
    (fun res s' =>
       res = <["builtin_sorted_ms" := ms 2%nat]>
               (<["merge_sort_ms" := ms 0%nat]> ∅) /\
       Store.ticks s' = 4%nat).
Proof.
  intros s ms.
  assert (Hdata : Store.objects s !! 0%nat = Some [3; 1; 2]) by reflexivity.
  assert (Hne : 2 <> 0) by lia.
  assert (Hn : - Store.PY_SSIZE_T_MAX - 1 <= 2 <= Store.PY_SSIZE_T_MAX)
    by (split; vm_compute; discriminate).
  split; [exact Hdata|]. split; [exact Hne|]. split; [exact Hn|].
  exact (proj1 (proj1 (benchmark_readings (fun x : Z => x) clock_10us 0%nat
                         [3; 1; 2] 2 2 s Hdata Hne) Hn)).
Defined.

Lemma insertion_sort_pass_on_sorted_witness :
  non_descending (fun x : Z => x) [1; 2; 2; 5] /\
  (1 <= 2)%nat /\
  [1; 2; 2; 5] !! 2%nat = Some 2 /\
  Algorithms.insertion_sort_while (fun x : Z => x) 2 [1; 2; 2; 5]
    (Z.of_nat 2 - 1) = Returns ([1; 2; 2; 5], Z.of_nat 2 - 1) /\
  Algorithms.insertion_sort_body (fun x : Z => x) [1; 2; 2; 5] (Z.of_nat 2)
    = Returns [1; 2; 2; 5].
Proof.
  assert (Hs : non_descending (fun x : Z => x) [1; 2; 2; 5])
    by (apply is_sorted_spec; reflexivity).
  assert (Hi : (1 <= 2)%nat) by lia.
  assert (Hc : [1; 2; 2; 5] !! 2%nat = Some 2) by reflexivity.
  split; [exact Hs|]. split; [exact Hi|]. split; [exact Hc|].
  exact (insertion_sort_pass_on_sorted (fun x : Z => x) [1; 2; 2; 5] 2 2
           Hs Hi Hc).
Defined.

